(** * splitternever: clip boundaries, caption alignment, SRT parsing, styles

    A shallow embedding of [src/splitter.py] (class [VideoSplitter]).

    Conventions of the embedding.
    - Seconds are Python floats in the source; here they are rationals
      ([Q]), compared with [==], [<] and [<=].  The silence strategy,
      which divides and multiplies, rounds after every floating-point
      operation with a rounding function [fl]; [Float64.binary64] is
      rounding to the nearest double.  The equal split and the caption
      arithmetic only add and subtract and are written without
      rounding.  Infinities and NaN are not modelled.
    - Milliseconds returned by the audio probe are Python ints ([Z]).
    - A Python [list] that is only appended to and popped from its end is
      a Rocq [list] with [l ++ [x]] for [append] and [pop] on the last
      element.
    - A Python [dict] literal read with [.get(key, default)] is a stdpp
      [gmap] read with [default d (m !! key)].
    - A call that can raise returns an [outcome]; a [while] loop takes a
      fuel argument and answers [OutOfFuel] when it is exhausted. *)

From Stdlib Require Import QArith Qminmax Qround Qabs Qpower Lqa Lia ZArith Bool.
From Stdlib Require Import List String Ascii.
From stdpp Require Import base option gmap strings pretty.
Import ListNotations.

Local Open Scope string_scope.
Local Open Scope list_scope.

(** ** Outcomes of calls *)

Inductive exn : Type :=
| FileNotFoundError
| AttributeError
| ValueError
| ZeroDivisionError
| UnboundLocalError
| IndexError.

Inductive outcome (A : Type) : Type :=
| Returns (a : A)
| Raises (e : exn)
| OutOfFuel.

Arguments Returns {A} a.
Arguments Raises {A} e.
Arguments OutOfFuel {A}.

(** Sequencing: an exception or an exhausted loop ends the computation. *)
Definition bind {A B} (m : outcome A) (k : A -> outcome B) : outcome B :=
  match m with
  | Returns a => k a
  | Raises e => Raises e
  | OutOfFuel => OutOfFuel
  end.

(** ** Comparisons on seconds *)

(** Python's [x < y] on numbers. *)
Definition Qltb (x y : Q) : bool := negb (Qle_bool y x).

(** ** Caption styles ([_get_font_size] .. [_get_font], lines 371-414) *)

Module Style.

Definition sizes : gmap string Z :=
  <["standard" := 28%Z]> (<["minimal" := 24%Z]>
  (<["bold" := 32%Z]> (<["outline" := 30%Z]> ∅))).

Definition _get_font_size (style : string) : Z :=
  default 28%Z (sizes !! style).

Definition text_colors : gmap string string :=
  <["standard" := "white"]> (<["minimal" := "lightgray"]>
  (<["bold" := "white"]> (<["outline" := "white"]> ∅))).

Definition _get_text_color (style : string) : string :=
  default "white" (text_colors !! style).

(** [None] is the Python [None] stored under ['minimal']. *)
Definition stroke_colors : gmap string (option string) :=
  <["standard" := Some "black"]> (<["minimal" := None]>
  (<["bold" := Some "black"]> (<["outline" := Some "black"]> ∅))).

Definition _get_stroke_color (style : string) : option string :=
  default (Some "black") (stroke_colors !! style).

Definition widths : gmap string Z :=
  <["standard" := 1%Z]> (<["minimal" := 0%Z]>
  (<["bold" := 2%Z]> (<["outline" := 3%Z]> ∅))).

Definition _get_stroke_width (style : string) : Z :=
  default 1%Z (widths !! style).

Definition fonts : gmap string string :=
  <["standard" := "Arial"]> (<["minimal" := "Helvetica"]>
  (<["bold" := "Arial-Bold"]> (<["outline" := "Arial"]> ∅))).

Definition _get_font (style : string) : string :=
  default "Arial" (fonts !! style).

(** The keyword arguments handed to [TextClip] at lines 307-311. *)
Record style_parameters : Type := {
  fontsize : Z;
  color : string;
  font : string;
  stroke_color : option string;
  stroke_width : Z
}.

Definition resolve_style (caption_style : string) : style_parameters :=
  {| fontsize := _get_font_size caption_style;
     color := _get_text_color caption_style;
     font := _get_font caption_style;
     stroke_color := _get_stroke_color caption_style;
     stroke_width := _get_stroke_width caption_style |}.

End Style.

(** ** Caption timing ([_add_captions_to_clip], lines 286-297) *)

Module Captions.

(** A subtitle dictionary [{'start': .., 'end': .., 'text': ..}]. *)
Record subtitle : Type := {
  sub_start : Q;
  sub_end : Q;
  sub_text : string
}.

Local Open Scope Q_scope.

(** The test of lines 289-290. *)
Definition in_clip (start_time clip_duration : Q) (sub : subtitle) : bool :=
  Qltb start_time (sub_end sub)
  && Qltb (sub_start sub) (start_time + clip_duration).

(** The dictionary built at lines 292-296. *)
Definition adj_sub (start_time clip_duration : Q) (sub : subtitle) : subtitle :=
  {| sub_text := sub_text sub;
     sub_start := Qmax 0 (sub_start sub - start_time);
     sub_end := Qmin clip_duration (sub_end sub - start_time) |}.

(** One turn of the [for sub in subtitles] loop. *)
Definition filter_body (start_time clip_duration : Q)
    (clip_subtitles : list subtitle) (sub : subtitle) : list subtitle :=
  if in_clip start_time clip_duration sub
  then clip_subtitles ++ [adj_sub start_time clip_duration sub]
  else clip_subtitles.

Definition clip_subtitles_of (subtitles : list subtitle)
    (start_time clip_duration : Q) : list subtitle :=
  fold_left (filter_body start_time clip_duration) subtitles [].

End Captions.

(** ** Rounding to double precision *)

Module Float64.

Local Open Scope Q_scope.

(** [floor (log2 a)] for a positive rational. *)
Definition log2_floor (a : Q) : Z :=
  let e := (Z.log2 (Qnum a) - Z.log2 (Z.pos (Qden a)))%Z in
  if Qle_bool (Qpower 2 e) a then e else (e - 1)%Z.

(** The nearest integer, ties to the even one. *)
Definition round_half_even (x : Q) : Z :=
  let f := Qfloor x in
  match Qcompare (x - inject_Z f) (1 # 2) with
  | Lt => f
  | Gt => (f + 1)%Z
  | Eq => if Z.even f then f else (f + 1)%Z
  end.

(** The double nearest to [x] (53 significant bits, ties to even), for
    [x] within the range of normal doubles. *)
Definition binary64 (x : Q) : Q :=
  if Qeq_bool x 0 then 0 else
  let a := Qabs x in
  let e := log2_floor a in
  let m := round_half_even (a * Qpower 2 (52 - e)) in
  let r := Qred (inject_Z m * Qpower 2 (e - 52)) in
  if Qle_bool 0 x then r else - r.

End Float64.

(** ** Clip boundaries (lines 71-104 and 141-213) *)

Module Boundaries.

Local Open Scope Q_scope.

(** A tuple [(start, end)] in seconds. *)
Definition boundary : Type := Q * Q.

Definition duration (b : boundary) : Q := snd b - fst b.

(** [l.pop()]: the last element and the list without it. *)
Definition pop {A : Type} (l : list A) : option (list A * A) :=
  match rev l with
  | [] => None
  | x :: r => Some (rev r, x)
  end.

(** *** Strategy 3: [_calculate_equal_boundaries] (lines 188-213) *)

(** The body of the [while] loop: from [start] and [boundaries] to the
    next [start] and [boundaries]. *)
Definition equal_body (total_duration min_duration max_duration : Q)
    (start : Q) (boundaries : list boundary) : outcome (Q * list boundary) :=
  let end_ := Qmin (start + max_duration) total_duration in
  if Qltb (end_ - start) min_duration && (0 <? length boundaries)%nat
  then
    match pop boundaries with
    | Some (rest, (prev_start, prev_end)) =>
        Returns (end_, rest ++ [(prev_start, end_)])
    | None => Raises IndexError
    end
  else Returns (end_, boundaries ++ [(start, end_)]).

Fixpoint equal_loop (fuel : nat) (total_duration min_duration max_duration : Q)
    (start : Q) (boundaries : list boundary) : outcome (list boundary) :=
  if Qltb start total_duration then
    match fuel with
    | O => OutOfFuel
    | S fuel' =>
        match equal_body total_duration min_duration max_duration
                start boundaries with
        | Returns (start', boundaries') =>
            equal_loop fuel' total_duration min_duration max_duration
              start' boundaries'
        | Raises e => Raises e
        | OutOfFuel => OutOfFuel
        end
    end
  else Returns boundaries.

Definition _calculate_equal_boundaries (fuel : nat)
    (total_duration min_duration max_duration : Q) : outcome (list boundary) :=
  equal_loop fuel total_duration min_duration max_duration 0 [].

(** *** Strategy 2: [_detect_silence_boundaries] (lines 141-186) *)

(** The local variables that survive from one chunk to the next.
    [end_var] is [None] while the name [end] is unbound. *)
Record silence_state : Type := {
  current_start : Q;
  end_var : option Q;
  boundaries : list boundary
}.

Section Rounding.

(** Rounding to the nearest float, applied to the result of every
    floating-point operation below. *)
Variable fl : Q -> Q.

(** The tuple [(start, end)] computed at lines 177-178 for index [i]. *)
Definition split_interval (current_start split_duration : Q) (i : nat)
    : boundary :=
  let start :=
    fl (current_start + fl (inject_Z (Z.of_nat i) * split_duration)) in
  let end_ := fl (start + split_duration) in
  (start, end_).

(** One turn of [for i in range(num_splits)] (lines 176-179): [end] is
    bound and the tuple appended. *)
Definition split_body (current_start split_duration : Q)
    (acc : option Q * list boundary) (i : nat) : option Q * list boundary :=
  let b := split_interval current_start split_duration i in
  (Some (snd b), snd acc ++ [b]).

(** Lines 172-181: the branch for a chunk longer than [max_duration]. *)
Definition split_long_chunk (max_duration chunk_duration : Q)
    (st : silence_state) : outcome silence_state :=
  if Qeq_bool max_duration 0 then Raises ZeroDivisionError else
  let num_splits := Qceiling (fl (chunk_duration / max_duration)) in
  if (num_splits =? 0)%Z then Raises ZeroDivisionError else
  let split_duration := fl (chunk_duration / inject_Z num_splits) in
  let '(end', boundaries') :=
    fold_left (split_body (current_start st) split_duration)
      (seq 0 (Z.to_nat num_splits)) (end_var st, boundaries st) in
  match end' with
  | None => Raises UnboundLocalError
  | Some e =>
      Returns {| current_start := e; end_var := end'; boundaries := boundaries' |}
  end.

(** The body of [for chunk_start, chunk_end in non_silent_chunks]. *)
Definition silence_body (min_duration max_duration : Q)
    (st : silence_state) (chunk : Z * Z) : outcome silence_state :=
  let '(chunk_start, chunk_end) := chunk in
  let chunk_duration := fl (inject_Z (chunk_end - chunk_start) / 1000) in
  if Qle_bool min_duration chunk_duration then
    if Qle_bool chunk_duration max_duration then
      Returns {| current_start := fl (inject_Z chunk_end / 1000);
                 end_var := end_var st;
                 boundaries := boundaries st
                   ++ [(current_start st, fl (inject_Z chunk_end / 1000))] |}
    else split_long_chunk max_duration chunk_duration st
  else Returns st.

Fixpoint silence_loop (min_duration max_duration : Q)
    (non_silent_chunks : list (Z * Z)) (st : silence_state)
    : outcome silence_state :=
  match non_silent_chunks with
  | [] => Returns st
  | chunk :: chunks =>
      bind (silence_body min_duration max_duration st chunk)
        (silence_loop min_duration max_duration chunks)
  end.

(** [audio] is what [AudioSegment.from_file] followed by
    [detect_nonsilent] yields: [None] when either raises.  Every
    exception inside the [try] gives the empty list. *)
Definition _detect_silence_boundaries (audio : option (list (Z * Z)))
    (min_duration max_duration : Q) : list boundary :=
  match audio with
  | None => []
  | Some non_silent_chunks =>
      match silence_loop min_duration max_duration non_silent_chunks
              {| current_start := 0; end_var := None; boundaries := [] |} with
      | Returns st => boundaries st
      | _ => []
      end
  end.


(** *** Strategy selection: [_calculate_clip_boundaries] (lines 71-104) *)

Section Calculator.

(** The scene merge step called at line 87. *)
Variable merge_scenes : list Q -> Q -> Q -> Q -> outcome (list boundary).

(** [scene_boundaries] is the list returned by
    [_detect_scene_changes]; [audio] is as above. *)
Definition calculate_clip_boundaries_with (fuel : nat)
    (scene_boundaries : list Q) (audio : option (list (Z * Z)))
    (min_duration max_duration total_duration : Q)
    : outcome (list boundary) :=
  match scene_boundaries with
  | _ :: _ =>
      merge_scenes scene_boundaries min_duration max_duration total_duration
  | [] =>
      match _detect_silence_boundaries audio min_duration max_duration with
      | (_ :: _) as silence_boundaries => Returns silence_boundaries
      | [] =>
          _calculate_equal_boundaries fuel total_duration
            min_duration max_duration
      end
  end.

End Calculator.

(** [VideoSplitter] has no attribute [_merge_scenes_to_duration] (no
    [def] of that name in the class, no [__getattr__]): looking it up at
    line 87 raises [AttributeError]. *)
Definition _merge_scenes_to_duration (scene_boundaries : list Q)
    (min_duration max_duration total_duration : Q)
    : outcome (list boundary) :=
  Raises AttributeError.

(** Lines 86-104, from the list of scene changes on. *)
Definition _calculate_clip_boundaries :
    nat -> list Q -> option (list (Z * Z)) -> Q -> Q -> Q
    -> outcome (list boundary) :=
  calculate_clip_boundaries_with _merge_scenes_to_duration.

(** *** [split_video] (lines 17-69) *)

Section SplitVideo.

Context {Info : Type}.

(** [_create_clip clip_number start end]: [None] when it raises. *)
Variable _create_clip : nat -> Q -> Q -> option Info.

(** The body of [for i, (start, end) in enumerate(clip_boundaries)];
    the accumulator carries [i] and [clips_info]. *)
Definition clip_body (acc : nat * list Info) (b : boundary)
    : nat * list Info :=
  let '(i, clips_info) := acc in
  match _create_clip (i + 1) (fst b) (snd b) with
  | Some clip_info => (S i, clips_info ++ [clip_info])
  | None => (S i, clips_info)
  end.

(** [path_exists] is [os.path.exists(video_path)] and
    [total_duration] is [video.duration]. *)
Definition split_video (fuel : nat) (path_exists : bool)
    (total_duration : Q) (clip_duration : Q * Q)
    (scene_boundaries : list Q) (audio : option (list (Z * Z)))
    : outcome (list Info) :=
  if negb path_exists then Raises FileNotFoundError else
  bind (_calculate_clip_boundaries fuel scene_boundaries audio
          (fst clip_duration) (snd clip_duration) total_duration)
    (fun clip_boundaries =>
       Returns (snd (fold_left clip_body clip_boundaries (O, [])))).

End SplitVideo.

End Rounding.

(** *** Shape of a boundary sequence *)






(** [linked s bs e]: [bs] leads from [s] to [e] without gaps. *)
Fixpoint linked (s : Q) (bs : list boundary) (e : Q) : Prop :=
  match bs with
  | [] => s == e
  | b :: rest => fst b == s /\ linked (snd b) rest e
  end.

(** Every interval ends after it starts. *)
Definition proper (bs : list boundary) : Prop :=
  Forall (fun b => fst b < snd b) bs.


(** [chain s bs e]: a gap-free run of non-empty intervals from [s] to
    [e]. *)
Definition chain (s : Q) (bs : list boundary) (e : Q) : Prop :=
  linked s bs e /\ proper bs.

(** What holds of [start] and [boundaries] at the head of the
    equal-split loop. *)
Definition equal_inv (total max_d : Q) (start : Q) (bs : list boundary) : Prop :=
  chain 0 bs start
  /\ Forall (fun b => duration b == max_d) bs
  /\ start <= total.

(** What holds of the list the equal split returns. *)
Definition equal_post (total min_d max_d : Q) (bs : list boundary) : Prop :=
  chain 0 bs total
  /\ exists front last_b,
       bs = front ++ [last_b]
       /\ Forall (fun b => duration b == max_d) front
       /\ 0 < duration last_b
       /\ duration last_b < max_d + min_d
       /\ (min_d <= total -> min_d <= duration last_b)
       /\ (total < min_d -> front = []).

(** Number of turns of the equal-split loop that suffice for the
    fuel. *)
Definition equal_split_turns (total_duration max_duration : Q) : nat :=
  Z.to_nat (Qceiling (total_duration / max_duration)).

End Boundaries.

(** ** SRT transcripts ([_parse_srt_file], [_time_to_seconds], lines 325-369) *)

Module Srt.

Import Captions.

(** *** The string methods the parser calls

    Text is a [string] of one-byte characters; the definitions below
    follow Python on ASCII text (characters above 127 count as neither
    white space nor digits). *)

(** [str.isspace] on one ASCII character: tab, line feed, vertical tab,
    form feed, carriage return, the four separators 28-31 and space. *)
Definition is_space (c : ascii) : bool :=
  let n := nat_of_ascii c in
  ((9 <=? n) && (n <=? 13) || (28 <=? n) && (n <=? 32))%nat.

Fixpoint lstrip (s : string) : string :=
  match s with
  | String c rest => if is_space c then lstrip rest else s
  | EmptyString => EmptyString
  end.

Fixpoint rstrip (s : string) : string :=
  match s with
  | EmptyString => EmptyString
  | String c rest =>
      match rstrip rest with
      | EmptyString => if is_space c then EmptyString else String c EmptyString
      | rest' => String c rest'
      end
  end.

(** [s.strip()] *)
Definition strip (s : string) : string := rstrip (lstrip s).

(** [s.split(sep)] for a non-empty [sep]: scan from the left; [skip]
    counts the characters of a matched separator still to be passed and
    [cur] is the piece read so far. *)
Fixpoint split_go (sep : string) (skip : nat) (cur : string) (s : string)
    : list string :=
  match s with
  | EmptyString => [cur]
  | String c rest =>
      match skip with
      | S k => split_go sep k cur rest
      | O =>
          if String.prefix sep s
          then cur :: split_go sep (String.length sep - 1) EmptyString rest
          else split_go sep 0 (cur ++ String c EmptyString)%string rest
      end
  end.

Definition split (sep s : string) : list string :=
  split_go sep 0 EmptyString s.

(** [sep.join(pieces)] *)
Definition join (sep : string) (pieces : list string) : string :=
  String.concat sep pieces.

Definition is_digit (c : ascii) : bool :=
  let n := nat_of_ascii c in ((48 <=? n) && (n <=? 57))%nat.

Definition digit_value (c : ascii) : Z :=
  Z.of_nat (nat_of_ascii c - 48).

(** Decimal digits with single underscores allowed between two digits;
    [after_digit] tells whether the previous character was a digit. *)
Fixpoint digits (acc : Z) (after_digit : bool) (s : string) : option Z :=
  match s with
  | EmptyString => if after_digit then Some acc else None
  | String c rest =>
      if is_digit c then digits (acc * 10 + digit_value c)%Z true rest
      else if Ascii.eqb c "_" && after_digit then digits acc false rest
      else None
  end.

(** [int(s)] on a string: surrounding white space, an optional sign,
    then decimal digits.  [None] stands for [ValueError]. *)
Definition py_int (s : string) : option Z :=
  match strip s with
  | String "-" rest => Z.opp <$> digits 0 false rest
  | String "+" rest => digits 0 false rest
  | body => digits 0 false body
  end.

(** *** [_time_to_seconds] (lines 362-369) *)

(** The body of the [try]: [None] when any statement raises. *)
Definition time_fields (time_str : string) : option Q :=
  match split ":" time_str with
  | [h; m; s] =>
      match split "," s with
      | [s'; ms] =>
          h' ← py_int h;
          m' ← py_int m;
          s'' ← py_int s';
          ms' ← py_int ms;
          Some (inject_Z (h' * 3600 + m' * 60 + s'') + inject_Z ms' / 1000)%Q
      | _ => None
      end
  | _ => None
  end.

Definition _time_to_seconds (time_str : string) : Q :=
  match time_fields time_str with
  | Some seconds => seconds
  | None => 0%Q
  end.

(** *** [_parse_srt_file] (lines 325-360) *)

Definition newline : string := String (ascii_of_nat 10) EmptyString.

(** The body of [for block in blocks]: [Returns None] when the block has
    fewer than three lines, [Raises ValueError] when the unpacking at
    line 342 fails. *)
Definition parse_block (block : string) : outcome (option subtitle) :=
  let lines := split newline (strip block) in
  if (3 <=? length lines)%nat then
    let time_line := nth 1 lines EmptyString in
    match split " --> " time_line with
    | [start_str; end_str] =>
        let start_seconds := _time_to_seconds start_str in
        let end_seconds := _time_to_seconds end_str in
        let text := join " " (skipn 2 lines) in
        Returns (Some {| sub_start := start_seconds;
                         sub_end := end_seconds;
                         sub_text := text |})
    | _ => Raises ValueError
    end
  else Returns None.

(** The [for] loop inside the [try]: an exception leaves the loop and
    the handler at line 357 keeps what [subtitles] holds. *)
Fixpoint parse_blocks (blocks : list string) (subtitles : list subtitle)
    : list subtitle :=
  match blocks with
  | [] => subtitles
  | block :: rest =>
      match parse_block block with
      | Returns (Some sub) => parse_blocks rest (subtitles ++ [sub])
      | Returns None => parse_blocks rest subtitles
      | _ => subtitles
      end
  end.

(** [content] is what [f.read()] yields, [None] when opening or
    decoding the file raises. *)
Definition _parse_srt_file (content : option string) : list subtitle :=
  match content with
  | None => []
  | Some text => parse_blocks (split (newline ++ newline)%string (strip text)) []
  end.

End Srt.

(** ** Scene detection ([_detect_scene_changes], lines 106-139) *)

Module Scenes.

Import Srt.

(** [sub in s] on strings. *)
Fixpoint contains (sub s : string) : bool :=
  String.prefix sub s
  || match s with
     | String _ rest => contains sub rest
     | EmptyString => false
     end.

(** [s.split()] without argument: the maximal runs of characters that
    are not white space; [cur] is the run read so far. *)
Fixpoint split_ws_go (cur : string) (s : string) : list string :=
  match s with
  | EmptyString =>
      match cur with
      | EmptyString => []
      | _ => [cur]
      end
  | String c rest =>
      if is_space c then
        match cur with
        | EmptyString => split_ws_go EmptyString rest
        | _ => cur :: split_ws_go EmptyString rest
        end
      else split_ws_go (cur ++ String c EmptyString)%string rest
  end.

Definition split_ws (s : string) : list string := split_ws_go EmptyString s.

Section SceneDetection.

(** The type of Python floats and [float(s)] on a string, [None] for
    [ValueError]. *)
Context {F : Type}.
Variable py_float : string -> option F.

(** The body of [for line in result.stdout.split('\n')] (lines
    129-134); [IndexError] and [ValueError] are caught and the line is
    passed over. *)
Definition scene_body (boundaries : list F) (line : string) : list F :=
  if contains "pts_time:" line then
    match nth_error (split "pts_time:" line) 1 with
    | Some after =>
        match split_ws after with
        | time_str :: _ =>
            match py_float time_str with
            | Some t => boundaries ++ [t]
            | None => boundaries
            end
        | [] => boundaries
        end
    | None => boundaries
    end
  else boundaries.

(** [run_result] is [result.stdout] of the [ffmpeg] run, [None] when
    [subprocess.run] raises. *)
Definition _detect_scene_changes (run_result : option string) : list F :=
  match run_result with
  | None => []
  | Some stdout => fold_left scene_body (split newline stdout) []
  end.

End SceneDetection.

End Scenes.

(** ** From the video to its boundaries (lines 84 and 119-139) *)

Module Pipeline.

Import Boundaries Scenes.

(** [subprocess.run(..., capture_output=..., stdout=..., stderr=...)]:
    asking for captured output together with [stdout] or [stderr]
    raises [ValueError] before any process is started; otherwise the
    outcome is that of the process. *)
Definition subprocess_run (capture_output stdout_given stderr_given : bool)
    (process : outcome string) : outcome string :=
  if capture_output && (stdout_given || stderr_given)
  then Raises ValueError
  else process.

(** Lines 119-124: the call passes [capture_output=True] and
    [stderr=subprocess.STDOUT]; an exception is caught at line 138. *)
Definition scene_run_result (process : outcome string) : option string :=
  match subprocess_run true false true process with
  | Returns stdout => Some stdout
  | _ => None
  end.

(** [_calculate_clip_boundaries] as it is called (lines 71-104): the
    scene changes are detected first.  [process] is what running
    [ffmpeg] would give and [py_float] is [float()] on a string. *)
Definition calculate_clip_boundaries_of_video (fl : Q -> Q)
    (py_float : string -> option Q) (process : outcome string)
    (audio : option (list (Z * Z))) (fuel : nat)
    (min_duration max_duration total_duration : Q)
    : outcome (list boundary) :=
  _calculate_clip_boundaries fl fuel
    (_detect_scene_changes py_float (scene_run_result process))
    audio min_duration max_duration total_duration.

End Pipeline.

(** ** Single clips ([_create_clip], [_add_captions_to_clip]) *)

Module Clips.

Import Captions Srt.

Fixpoint zeros (n : nat) : string :=
  match n with
  | O => EmptyString
  | S k => String "0" (zeros k)
  end.

Definition zero_pad (width : nat) (digits : string) : string :=
  (zeros (width - String.length digits) ++ digits)%string.

(** [format(z, '0Nd')]: decimal digits padded with zeros to [width]
    characters, the sign counted in the width. *)
Definition format_0d (width : nat) (z : Z) : string :=
  if (z <? 0)%Z
  then String "-" (zero_pad (width - 1) (pretty (Z.to_N (- z))))
  else zero_pad width (pretty (Z.to_N z)).

(** Line 233: [f"{base_name}_clip_{clip_number:03d}.mp4"]. *)
Definition output_filename (base_name : string) (clip_number : nat) : string :=
  (base_name ++ "_clip_" ++ format_0d 3 (Z.of_nat clip_number) ++ ".mp4")%string.

(** What lines 305-317 fix of a [TextClip]: its text, its style, how
    long it shows and from when. *)
Record text_clip : Type := {
  tc_text : string;
  tc_style : Style.style_parameters;
  tc_duration : Q;
  tc_start : Q
}.

(** The body of [for sub in clip_subtitles] (lines 301-318). *)
Definition text_clip_body (caption_style : string)
    (text_clips : list text_clip) (sub : subtitle) : list text_clip :=
  let duration := (sub_end sub - sub_start sub)%Q in
  text_clips ++ [{| tc_text := sub_text sub;
                    tc_style := Style.resolve_style caption_style;
                    tc_duration := duration;
                    tc_start := sub_start sub |}].

(** What [_add_captions_to_clip] returns: the clip it was given, or a
    composite of that clip and text clips. *)
Inductive captioned : Type :=
| Plain
| Composite (text_clips : list text_clip).

(** [content] is what reading the subtitle file yields and
    [clip_duration] is [clip.duration]. *)
Definition _add_captions_to_clip (content : option string)
    (start_time clip_duration : Q) (caption_style : string) : captioned :=
  let subtitles := _parse_srt_file content in
  let clip_subtitles := clip_subtitles_of subtitles start_time clip_duration in
  let text_clips := fold_left (text_clip_body caption_style) clip_subtitles [] in
  match text_clips with
  | [] => Plain
  | _ :: _ => Composite text_clips
  end.

(** The caption part of [_create_clip] (lines 229 and 237-243).
    [subtitle_file] is [None] when [subtitle_path] is [None], empty or
    names no existing file, and otherwise holds what reading the file
    yields; the sub-clip of [(start, end)] lasts [end - start]. *)
Definition clip_captions (subtitle_file : option (option string))
    (start end_ : Q) (caption_style : string) : captioned :=
  match subtitle_file with
  | Some content =>
      _add_captions_to_clip content start (end_ - start)%Q caption_style
  | None => Plain
  end.

End Clips.

(** ** Helpers of [utils.py] and [downloader.py] *)

Module Utils.

Import Clips.

(** [int(x)] on a float: the fraction is cut off, towards zero. *)
Definition int_of_float (x : Q) : Z := Z.quot (Qnum x) (Z.pos (Qden x)).

(** [format_duration] (utils.py, lines 33-37); [divmod] is floor
    division with the matching remainder. *)
Definition format_duration (seconds : Q) : string :=
  let n := int_of_float seconds in
  let '(hours, remainder) := (n / 3600, n mod 3600)%Z in
  let '(minutes, seconds') := (remainder / 60, remainder mod 60)%Z in
  (format_0d 2 hours ++ ":" ++ format_0d 2 minutes ++ ":"
   ++ format_0d 2 seconds')%string.

Section FileSize.

(** [f"{x:.2f}"], the rendering of a number with two decimals. *)
Variable format_2f : Q -> string.

(** The [for unit in ['B', 'KB', 'MB', 'GB']] loop of
    [format_file_size] (utils.py, lines 39-45). *)
Fixpoint file_size_loop (units : list string) (bytes_size : Q) : string :=
  match units with
  | [] => (format_2f bytes_size ++ " TB")%string
  | unit :: rest =>
      if Qltb bytes_size 1024
      then (format_2f bytes_size ++ " " ++ unit)%string
      else file_size_loop rest (bytes_size / 1024)%Q
  end.

Definition format_file_size (bytes_size : Q) : string :=
  file_size_loop ["B"; "KB"; "MB"; "GB"] bytes_size.

End FileSize.

End Utils.

Module Downloader.

(** [_get_format_selector] (downloader.py, lines 80-91). *)
Definition quality_map : gmap string string :=
  <["best" := "bestvideo[ext=mp4]+bestaudio[ext=m4a]/best[ext=mp4]/best"]>
  (<["1080p" :=
       "bestvideo[height<=1080][ext=mp4]+bestaudio[ext=m4a]/best[height<=1080]"]>
  (<["720p" :=
       "bestvideo[height<=720][ext=mp4]+bestaudio[ext=m4a]/best[height<=720]"]>
  (<["480p" :=
       "bestvideo[height<=480][ext=mp4]+bestaudio[ext=m4a]/best[height<=480]"]>
  (<["360p" :=
       "bestvideo[height<=360][ext=mp4]+bestaudio[ext=m4a]/best[height<=360]"]>
   ∅)))).

(** [quality_map['best']] raises [KeyError] when the key is missing. *)
Definition _get_format_selector (quality : string) : option string :=
  best ← quality_map !! "best";
  Some (default best (quality_map !! quality)).

End Downloader.

(** ** Predicates on text used in the statements *)

Module Text.

(** Every character of [s] satisfies [p]. *)
Fixpoint all_chars (p : ascii -> bool) (s : string) : bool :=
  match s with
  | EmptyString => true
  | String c rest => p c && all_chars p rest
  end.

(** A decimal digit or the minus sign. *)
Definition is_digit_or_minus (c : ascii) : bool :=
  Srt.is_digit c || Ascii.eqb c "-".

End Text.

(** * Properties *)

Import Captions Boundaries Srt.

(** ** Comparisons *)

Lemma Qltb_lt (x y : Q) : Qltb x y = true <-> (x < y)%Q.
Proof.
  unfold Qltb. rewrite negb_true_iff, <- not_true_iff_false, Qle_bool_iff.
  split; [apply Qnot_le_lt | apply Qlt_not_le].
Qed.

Lemma Qltb_ge (x y : Q) : Qltb x y = false <-> (y <= x)%Q.
Proof.
  unfold Qltb. rewrite negb_false_iff. apply Qle_bool_iff.
Qed.

Lemma Qle_bool_gt (x y : Q) : Qle_bool x y = false <-> (y < x)%Q.
Proof.
  rewrite <- not_true_iff_false, Qle_bool_iff.
  split; [apply Qnot_le_lt | apply Qlt_not_le].
Qed.

(** Python's two-argument [min] returns one of its arguments. *)
Lemma Qmin_cases (x y : Q) :
  (x <= y /\ Qmin x y = x)%Q \/ (y < x /\ Qmin x y = y)%Q.
Proof.
  unfold Qmin, GenericMinMax.gmin.
  destruct (Qcompare_spec x y) as [E | L | G].
  - left. split; [rewrite E; apply Qle_refl | reflexivity].
  - left. split; [apply Qlt_le_weak, L | reflexivity].
  - right. split; [exact G | reflexivity].
Qed.

Lemma Qmax_cases (x y : Q) :
  (y <= x /\ Qmax x y = x)%Q \/ (x < y /\ Qmax x y = y)%Q.
Proof.
  unfold Qmax, GenericMinMax.gmax.
  destruct (Qcompare_spec x y) as [E | L | G].
  - left. split; [rewrite E; apply Qle_refl | reflexivity].
  - right. split; [exact L | reflexivity].
  - left. split; [apply Qlt_le_weak, G | reflexivity].
Qed.

(** ** Caption styles *)

(** C9, as amended: resolving the style named "minimal" yields font size
    24, text colour "lightgray" (one word), font "Helvetica", no stroke
    colour and stroke width 0. *)
Theorem minimal_style_resolved :
  Style.resolve_style "minimal"
  = {| Style.fontsize := 24;
       Style.color := "lightgray";
       Style.font := "Helvetica";
       Style.stroke_color := None;
       Style.stroke_width := 0 |}.
Proof. vm_compute. reflexivity. Qed.

(** C9 as stated fails: the text colour of "minimal" is not the two-word
    string "light gray". *)
Lemma minimal_text_color_not_light_gray :
  Style.resolve_style "minimal"
  <> {| Style.fontsize := 24;
        Style.color := "light gray";
        Style.font := "Helvetica";
        Style.stroke_color := None;
        Style.stroke_width := 0 |}.
Proof. vm_compute. discriminate. Qed.

(** ** Caption timing *)

Section CaptionTiming.

Local Open Scope Q_scope.

Variables start_time clip_duration : Q.

Lemma in_clip_overlap (sub : subtitle) :
  in_clip start_time clip_duration sub = true
  <-> sub_end sub > start_time /\ sub_start sub < start_time + clip_duration.
Proof.
  unfold in_clip. rewrite andb_true_iff, !Qltb_lt. reflexivity.
Qed.

Lemma filter_loop_acc (subtitles acc : list subtitle) :
  fold_left (filter_body start_time clip_duration) subtitles acc
  = acc ++ map (adj_sub start_time clip_duration)
             (List.filter (in_clip start_time clip_duration) subtitles).
Proof.
  revert acc. induction subtitles as [| sub subs IH]; intros acc; simpl.
  - symmetry. apply app_nil_r.
  - rewrite IH. unfold filter_body.
    destruct (in_clip start_time clip_duration sub); simpl.
    + rewrite <- app_assoc. reflexivity.
    + reflexivity.
Qed.

Lemma clip_subtitles_of_filter_map (subtitles : list subtitle) :
  clip_subtitles_of subtitles start_time clip_duration
  = map (adj_sub start_time clip_duration)
      (List.filter (in_clip start_time clip_duration) subtitles).
Proof. unfold clip_subtitles_of. apply filter_loop_acc. Qed.

(** Local times stay inside the clip: never before 0, never after the
    clip's duration. *)
Lemma clip_subtitles_clamped (subtitles : list subtitle) (out : subtitle) :
  In out (clip_subtitles_of subtitles start_time clip_duration) ->
  0 <= sub_start out /\ sub_end out <= clip_duration.
Proof.
  rewrite clip_subtitles_of_filter_map, in_map_iff.
  intros (sub & <- & _). unfold adj_sub. simpl. split.
  - destruct (Qmax_cases 0 (sub_start sub - start_time)) as [[_ ->] | [H ->]];
      [apply Qle_refl | apply Qlt_le_weak, H].
  - destruct (Qmin_cases clip_duration (sub_end sub - start_time))
      as [[_ ->] | [H ->]]; [apply Qle_refl | apply Qlt_le_weak, H].
Qed.

End CaptionTiming.



(** ** Equal split *)

(** C4: with a total of 125 seconds, a window of 30 to 60 seconds and
    no signals, the walk takes the steps (0,60), (60,120) and (120,125);
    the third is 5 seconds long, shorter than the minimum, so it is
    merged into (60,120), and the list returned is
    [(0,60), (60,125)] as soon as the fuel covers the three turns. *)
Theorem equal_split_125_30_60 :
  equal_body 125 30 60 0 [] = Returns (60%Q, [(0%Q, 60%Q)])
  /\ equal_body 125 30 60 60 [(0%Q, 60%Q)]
     = Returns (120%Q, [(0%Q, 60%Q); (60%Q, 120%Q)])
  /\ (Qmin (120 + 60) 125 = 125%Q /\ (125 - 120 < 30)%Q)
  /\ equal_body 125 30 60 120 [(0%Q, 60%Q); (60%Q, 120%Q)]
     = Returns (125%Q, [(0%Q, 60%Q); (60%Q, 125%Q)])
  /\ (forall extra,
        _calculate_equal_boundaries (3 + extra) 125 30 60
        = Returns [(0%Q, 60%Q); (60%Q, 125%Q)])
  /\ (forall fl extra,
        _calculate_clip_boundaries fl (3 + extra) [] None 30 60 125
        = Returns [(0%Q, 60%Q); (60%Q, 125%Q)]).
Proof.
  repeat split; try (vm_compute; reflexivity);
    [intros [| extra] | intros fl [| extra]]; vm_compute; reflexivity.
Qed.

(** ** Boundary sequences *)

Section Chains.

Local Open Scope Q_scope.

Lemma pop_snoc {A : Type} (l : list A) (x : A) : pop (l ++ [x]) = Some (l, x).
Proof.
  unfold pop. rewrite rev_app_distr. simpl. rewrite rev_involutive.
  reflexivity.
Qed.

Lemma pop_nonempty {A : Type} (l : list A) :
  (0 <? length l)%nat = true -> exists rest x, l = rest ++ [x].
Proof.
  destruct l as [| a l] using rev_ind; simpl.
  - discriminate.
  - intros _. exists l, a. reflexivity.
Qed.

Lemma linked_proper_ends (s s' e e' : Q) (bs : list boundary) :
  s == s' -> e == e' -> linked s bs e -> linked s' bs e'.
Proof.
  revert s s'. induction bs as [| b bs IH]; simpl; intros s s' Hs He.
  - intros H. rewrite <- Hs, <- He. exact H.
  - intros [H1 H2]. split.
    + rewrite H1. exact Hs.
    + apply (IH (snd b) (snd b)); [reflexivity | exact He | exact H2].
Qed.

Lemma linked_snoc (s e : Q) (bs : list boundary) (b : boundary) :
  linked s (bs ++ [b]) e <-> linked s bs (fst b) /\ snd b == e.
Proof.
  revert s. induction bs as [| c bs IH]; simpl; intros s.
  - split.
    + intros [H1 H2]. split; [symmetry; exact H1 | exact H2].
    + intros [H1 H2]. split; [symmetry; exact H1 | exact H2].
  - rewrite IH. tauto.
Qed.

Lemma linked_app (s m e : Q) (bs1 bs2 : list boundary) :
  linked s bs1 m -> linked m bs2 e -> linked s (bs1 ++ bs2) e.
Proof.
  revert s. induction bs1 as [| c bs1 IH]; simpl; intros s.
  - intros H1 H2. apply (linked_proper_ends m s e e);
      [symmetry; exact H1 | reflexivity | exact H2].
  - intros [H1 H2] H3. split; [exact H1 | apply IH; assumption].
Qed.

Lemma chain_le (s e : Q) (bs : list boundary) : chain s bs e -> s <= e.
Proof.
  unfold chain, proper. revert s.
  induction bs as [| b bs IH]; simpl; intros s [Hl Hp].
  - rewrite Hl. apply Qle_refl.
  - destruct Hl as [H1 H2]. inversion Hp as [| ? ? Hb Hp']; subst.
    specialize (IH (snd b) (conj H2 Hp')). lra.
Qed.






End Chains.

(** ** Equal split: the loop *)

Section EqualSplit.

Local Open Scope Q_scope.

Variables total min_d max_d : Q.
Hypothesis total_pos : 0 < total.
Hypothesis min_pos : 0 < min_d.
Hypothesis min_le_max : min_d <= max_d.

Lemma Qnat_S (n : nat) :
  inject_Z (Z.of_nat (S n)) == inject_Z (Z.of_nat n) + 1.
Proof.
  rewrite Nat2Z.inj_succ. unfold Z.succ. rewrite inject_Z_plus. reflexivity.
Qed.

Lemma equal_loop_done (fuel : nat) (start : Q) (bs : list boundary) :
  total <= start -> equal_loop fuel total min_d max_d start bs = Returns bs.
Proof.
  intros H. apply Qltb_ge in H. destruct fuel; simpl; rewrite H; reflexivity.
Qed.

(** One turn of the loop: either the walk goes on by a full step, or it
    reaches [total] and the list has its final shape. *)
Lemma equal_body_step (start : Q) (bs : list boundary) :
  equal_inv total max_d start bs -> start < total ->
  exists start' bs',
    equal_body total min_d max_d start bs = Returns (start', bs')
    /\ ((start' == start + max_d /\ start' < total /\ equal_inv total max_d start' bs')
        \/ (total <= start' /\ equal_post total min_d max_d bs')).
Proof.
  intros (Hc & Hd & Hle) Hlt. unfold equal_body.
  destruct (Qmin_cases (start + max_d) total) as [[Hm ->] | [Hm ->]].
  - (* a full step *)
    assert (Hshort : Qltb (start + max_d - start) min_d = false)
      by (apply Qltb_ge; lra).
    rewrite Hshort. simpl.
    exists (start + max_d), (bs ++ [(start, start + max_d)]).
    split; [reflexivity |].
    assert (Hc' : chain 0 (bs ++ [(start, start + max_d)]) (start + max_d)).
    { destruct Hc as [Hl Hp]. split.
      - apply linked_snoc. simpl. split; [exact Hl | reflexivity].
      - apply Forall_app. split; [exact Hp |].
        constructor; [simpl; lra | constructor]. }
    assert (Hd' : Forall (fun b => duration b == max_d)
                    (bs ++ [(start, start + max_d)])).
    { apply Forall_app. split; [exact Hd |].
      constructor; [unfold duration; simpl; lra | constructor]. }
    destruct (Qlt_le_dec (start + max_d) total) as [Hgo | Hstop].
    + left. split; [reflexivity |]. split; [exact Hgo |].
      split; [exact Hc' |]. split; [exact Hd' | lra].
    + right. split; [exact Hstop |]. split.
      * destruct Hc' as [Hl Hp]. split; [| exact Hp].
        apply (linked_proper_ends 0 0 (start + max_d) total);
          [reflexivity | lra | exact Hl].
      * exists bs, (start, start + max_d). unfold duration. simpl.
        repeat split; try assumption; try lra.
        intros Ht. pose proof (chain_le _ _ _ Hc). lra.
  - (* the last, partial step *)
    exists total.
    destruct (Qltb (total - start) min_d && (0 <? length bs)%nat) eqn:Hmerge.
    + (* merged into the previous interval *)
      apply andb_true_iff in Hmerge as [Hshort Hlen].
      apply Qltb_lt in Hshort.
      destruct (pop_nonempty _ Hlen) as (rest & [ps pe] & ->).
      rewrite pop_snoc. exists (rest ++ [(ps, total)]).
      split; [reflexivity |]. right. split; [apply Qle_refl |].
      destruct Hc as [Hl Hp]. apply linked_snoc in Hl as [Hl He].
      apply Forall_app in Hp as [Hp Hlast].
      apply Forall_app in Hd as [Hd Hdl].
      inversion Hlast as [| ? ? Hlast' _]; subst.
      inversion Hdl as [| ? ? Hdl' _]; subst.
      unfold duration in Hdl'. simpl in *.
      split.
      * split.
        -- apply linked_snoc. simpl. split; [exact Hl | reflexivity].
        -- apply Forall_app. split; [exact Hp |].
           constructor; [simpl; lra | constructor].
      * exists rest, (ps, total). unfold duration. simpl.
        repeat split; try assumption; try lra.
        intros Ht. pose proof (chain_le _ _ _ (conj Hl Hp)). lra.
    + (* appended as it is *)
      exists (bs ++ [(start, total)]). split; [reflexivity |].
      right. split; [apply Qle_refl |].
      split.
      * destruct Hc as [Hl Hp]. split.
        -- apply linked_snoc. simpl. split; [exact Hl | reflexivity].
        -- apply Forall_app. split; [exact Hp |].
           constructor; [simpl; lra | constructor].
      * exists bs, (start, total). unfold duration. simpl.
        pose proof (chain_le _ _ _ Hc) as H0.
        apply andb_false_iff in Hmerge as [Hlong | Hempty].
        -- apply Qltb_ge in Hlong.
           repeat split; try assumption; try lra.
        -- destruct bs as [| b bs]; [| discriminate].
           destruct Hc as [Hl _]. simpl in Hl.
           repeat split; try assumption; try lra.
Qed.

(** Fuel beyond what a run needs does not change its result. *)
Lemma equal_loop_more_fuel (n fuel : nat) :
  forall start bs r,
    (n <= fuel)%nat ->
    equal_loop n total min_d max_d start bs = Returns r ->
    equal_loop fuel total min_d max_d start bs = Returns r.
Proof.
  revert fuel. induction n as [| n IH]; intros fuel start bs r Hle.
  - simpl. destruct (Qltb start total) eqn:Hgo; [discriminate |].
    intros H. destruct fuel; simpl; rewrite Hgo; exact H.
  - destruct fuel as [| fuel]; [lia |]. simpl.
    destruct (Qltb start total); [| trivial].
    destruct (equal_body total min_d max_d start bs) as [[q' l'] | e |];
      try discriminate.
    apply IH. lia.
Qed.

(** The loop returns, with the final shape, once the fuel covers the
    distance still to walk. *)
Lemma equal_loop_returns (fuel : nat) :
  forall start bs,
    equal_inv total max_d start bs -> start < total ->
    total - start <= inject_Z (Z.of_nat fuel) * max_d ->
    exists bs',
      equal_loop fuel total min_d max_d start bs = Returns bs'
      /\ equal_post total min_d max_d bs'.
Proof.
  induction fuel as [| fuel IH]; intros start bs Hinv Hlt Hfuel.
  - change (inject_Z (Z.of_nat 0)) with 0 in Hfuel. lra.
  - simpl. rewrite (proj2 (Qltb_lt start total) Hlt).
    destruct (equal_body_step start bs Hinv Hlt)
      as (start' & bs' & -> & [(Hs & Hgo & Hinv') | (Hstop & Hpost)]).
    + apply IH; [exact Hinv' | exact Hgo |].
      rewrite Qnat_S in Hfuel. lra.
    + exists bs'. split; [apply equal_loop_done, Hstop | exact Hpost].
Qed.

Lemma equal_split_turns_enough (fuel : nat) :
  (equal_split_turns total max_d <= fuel)%nat ->
  total - 0 <= inject_Z (Z.of_nat fuel) * max_d.
Proof.
  intros Hfuel. unfold equal_split_turns in Hfuel.
  assert (Hmax : 0 < max_d) by lra.
  pose proof (Qle_ceiling (total / max_d)) as Hc.
  assert (Hdiv : 0 < total / max_d).
  { apply Qlt_shift_div_l; lra. }
  assert (Hz : (0 <= Qceiling (total / max_d))%Z).
  { rewrite Zle_Qle. change (inject_Z 0) with 0. lra. }
  assert (Hn : inject_Z (Qceiling (total / max_d))
               <= inject_Z (Z.of_nat fuel)).
  { rewrite <- Zle_Qle. lia. }
  assert (Ht : total == (total / max_d) * max_d).
  { field. lra. }
  assert (Hmul : (total / max_d) * max_d
                 <= inject_Z (Z.of_nat fuel) * max_d).
  { apply Qmult_le_compat_r; lra. }
  lra.
Qed.

(** The equal split returns, and its result has the final shape. *)
Lemma equal_boundaries_post :
  exists bs,
    (forall fuel, (equal_split_turns total max_d <= fuel)%nat ->
       _calculate_equal_boundaries fuel total min_d max_d = Returns bs)
    /\ equal_post total min_d max_d bs.
Proof.
  assert (Hinv : equal_inv total max_d 0 []).
  { repeat split; try constructor; simpl; lra || reflexivity. }
  destruct (equal_loop_returns _ 0 [] Hinv total_pos
              (equal_split_turns_enough _ (Nat.le_refl _)))
    as (bs & Hrun & Hpost).
  exists bs. split; [| exact Hpost].
  intros fuel Hfuel. unfold _calculate_equal_boundaries.
  apply (equal_loop_more_fuel _ fuel _ _ _ Hfuel Hrun).
Qed.

End EqualSplit.

(** ** Silence strategy: one chunk *)

Section SilenceChunk.

Local Open Scope Q_scope.

Variable fl : Q -> Q.
Variables min_d max_d : Q.
Hypothesis min_pos : 0 < min_d.
Hypothesis min_le_max : min_d <= max_d.





End SilenceChunk.

(** ** The silence strategy, span by span *)




(** ** The equal split: durations *)

(** C6, as amended: for a positive total and a window
    [0 < min <= max], the equal split returns (given fuel for its turns)
    a list whose intervals all but the last are exactly [max] long; the
    last is at most [max] long unless the final partial step was merged
    into it, and then it is still shorter than [max + min]; every
    interval is at least [min] long unless the total itself is shorter
    than [min], in which case the list is the single interval
    (0, total). *)
Theorem equal_split_durations (total min_d max_d : Q) :
  (0 < total)%Q -> (0 < min_d)%Q -> (min_d <= max_d)%Q ->
  exists front last_b,
    (forall fuel, (equal_split_turns total max_d <= fuel)%nat ->
       _calculate_equal_boundaries fuel total min_d max_d
       = Returns (front ++ [last_b]))
    /\ Forall (fun b => (duration b == max_d)%Q) front
    /\ (0 < duration last_b)%Q
    /\ (duration last_b < max_d + min_d)%Q
    /\ ((min_d <= total)%Q -> (min_d <= duration last_b)%Q)
    /\ ((total < min_d)%Q ->
        front = [] /\ (fst last_b == 0)%Q /\ (snd last_b == total)%Q).
Proof.
  intros Ht Hmin Hle.
  destruct (equal_boundaries_post total min_d max_d Ht Hmin Hle)
    as (bs & Hrun & [Hl Hp] & front & last_b & -> & H1 & H2 & H3 & H4 & H5).
  exists front, last_b. split; [exact Hrun |].
  repeat (split; [assumption |]).
  intros Hshort. specialize (H5 Hshort). subst front. simpl in Hl.
  split; [reflexivity |]. tauto.
Qed.

Lemma equal_split_durations_witness :
  exists front last_b,
    (forall fuel, (equal_split_turns 125 60 <= fuel)%nat ->
       _calculate_equal_boundaries fuel 125 30 60
       = Returns (front ++ [last_b]))
    /\ Forall (fun b => (duration b == 60)%Q) front
    /\ (0 < duration last_b)%Q
    /\ (duration last_b < 60 + 30)%Q
    /\ ((30 <= 125)%Q -> (30 <= duration last_b)%Q)
    /\ ((125 < 30)%Q ->
        front = [] /\ (fst last_b == 0)%Q /\ (snd last_b == 125)%Q).
Proof.
  apply (equal_split_durations 125 30 60);
    reflexivity || (vm_compute; discriminate).
Defined.

(** C6 as stated fails: for a total of 125 s and the window 30 to 60 s
    the second interval returned is 65 s long. *)
Lemma equal_split_exceeds_max :
  exists bs,
    _calculate_equal_boundaries 3 125 30 60 = Returns bs
    /\ ~ Forall (fun b => (duration b <= 60)%Q) bs.
Proof.
  exists [(0%Q, 60%Q); (60%Q, 125%Q)]. split; [vm_compute; reflexivity |].
  intros H. inversion H as [| ? ? _ H']; subst.
  inversion H' as [| ? ? Hd _]; subst.
  vm_compute in Hd. apply Hd. reflexivity.
Qed.

(** ** Strategy selection *)

Section InvertedWindow.

Local Open Scope Q_scope.

Variables total min_d max_d : Q.
Hypothesis max_pos : 0 < max_d.
Hypothesis max_lt_min : max_d < min_d.

(** With [max < min] every step after the first is merged into the
    single interval that starts at 0. *)
Lemma inverted_loop_returns (fuel : nat) :
  forall start bs,
    (bs = [] /\ start = 0) \/ (bs = [(0, start)] /\ 0 < start) ->
    start < total ->
    total - start <= inject_Z (Z.of_nat fuel) * max_d ->
    exists e,
      equal_loop fuel total min_d max_d start bs = Returns [(0, e)]
      /\ e == total.
Proof.
  induction fuel as [| fuel IH]; intros start bs Hinv Hlt Hfuel.
  - change (inject_Z (Z.of_nat 0)) with 0 in Hfuel. lra.
  - simpl. rewrite (proj2 (Qltb_lt start total) Hlt).
    assert (Hstart : 0 <= start) by (destruct Hinv as [[_ ->] | [_ H]]; lra).
    assert (Hstep : exists start',
               equal_body total min_d max_d start bs
               = Returns (start', [(0, start')])
               /\ start < start' /\ start' <= total
               /\ (start' == start + max_d \/ start' == total)).
    { unfold equal_body.
      destruct (Qmin_cases (start + max_d) total) as [[Hm E] | [Hm E]];
        rewrite E.
      - exists (start + max_d).
        assert (Hs : Qltb (start + max_d - start) min_d = true)
          by (apply Qltb_lt; lra).
        rewrite Hs.
        destruct Hinv as [[-> ->] | [-> _]]; simpl;
          (split; [reflexivity |]); (split; [lra |]);
          (split; [lra | left; reflexivity]).
      - exists total.
        assert (Hs : Qltb (total - start) min_d = true)
          by (apply Qltb_lt; lra).
        rewrite Hs.
        destruct Hinv as [[-> ->] | [-> _]]; simpl;
          (split; [reflexivity |]); (split; [lra |]);
          (split; [lra | right; reflexivity]). }
    destruct Hstep as (start' & -> & Hgrow & Hle & Hnext).
    destruct (Qlt_le_dec start' total) as [Hgo | Hstop].
    + apply IH; [right; split; [reflexivity | lra] | exact Hgo |].
      destruct Hnext as [Hn | Hn]; [| lra].
      rewrite Qnat_S in Hfuel. lra.
    + exists start'. split; [| lra].
      apply Qltb_ge in Hstop. destruct fuel; simpl; rewrite Hstop; reflexivity.
Qed.

Lemma inverted_window_single_interval :
  0 < total ->
  exists e,
    (forall fuel, (equal_split_turns total max_d <= fuel)%nat ->
       _calculate_equal_boundaries fuel total min_d max_d = Returns [(0, e)])
    /\ e == total.
Proof.
  intros Ht.
  assert (Hturns : total - 0
                   <= inject_Z (Z.of_nat (equal_split_turns total max_d))
                      * max_d).
  { apply (equal_split_turns_enough total max_d max_d); try lra.
    apply Nat.le_refl. }
  destruct (inverted_loop_returns _ 0 [] (or_introl (conj eq_refl eq_refl))
              Ht Hturns) as (e & Hrun & He).
  exists e. split; [| exact He].
  intros fuel Hfuel. unfold _calculate_equal_boundaries.
  apply (equal_loop_more_fuel _ _ _ _ fuel _ _ _ Hfuel Hrun).
Qed.

End InvertedWindow.

(** With a step that does not advance, the walk never reaches the
    total: no amount of fuel lets the loop return. *)
Lemma equal_loop_stuck (fuel : nat) (total min_d max_d : Q) :
  forall start bs,
    (max_d <= 0)%Q -> (start < total)%Q ->
    equal_loop fuel total min_d max_d start bs = OutOfFuel.
Proof.
  induction fuel as [| fuel IH]; intros start bs Hmax Hlt; simpl;
    rewrite (proj2 (Qltb_lt start total) Hlt); [reflexivity |].
  unfold equal_body.
  assert (Hend : (Qmin (start + max_d) total < total)%Q).
  { destruct (Qmin_cases (start + max_d) total) as [[_ ->] | [H ->]]; lra. }
  destruct (Qltb (Qmin (start + max_d) total - start) min_d
            && (0 <? length bs)%nat) eqn:Hmerge.
  - apply andb_true_iff in Hmerge as [_ Hlen].
    destruct (pop_nonempty _ Hlen) as (rest & [ps pe] & ->).
    rewrite pop_snoc. apply IH; assumption.
  - apply IH; assumption.
Qed.

Lemma equal_split_nothing_to_cut (fuel : nat) (total min_d max_d : Q) :
  (total <= 0)%Q ->
  _calculate_equal_boundaries fuel total min_d max_d = Returns [].
Proof.
  intros H. unfold _calculate_equal_boundaries.
  apply Qltb_ge in H. destruct fuel; simpl; rewrite H; reflexivity.
Qed.

Section EqualSplitAnyWindow.

Local Open Scope Q_scope.

Variables total min_d max_d : Q.

(** One turn moves [start] to [min(start + max, total)] and leaves a
    list that is not empty; the [pop] of line 206 is only reached with a
    non-empty list. *)
Lemma equal_body_next (start : Q) (bs : list boundary) :
  exists bs',
    equal_body total min_d max_d start bs
    = Returns (Qmin (start + max_d) total, bs')
    /\ bs' <> [].
Proof.
  unfold equal_body.
  destruct (Qltb (Qmin (start + max_d) total - start) min_d
            && (0 <? length bs)%nat) eqn:Hmerge.
  - apply andb_true_iff in Hmerge as [_ Hlen].
    destruct (pop_nonempty _ Hlen) as (rest & [ps pe] & ->).
    rewrite pop_snoc. eexists. split; [reflexivity |].
    destruct rest; discriminate.
  - eexists. split; [reflexivity |]. destruct bs; discriminate.
Qed.

(** Whatever the window, the loop neither raises nor returns an empty
    list once it has taken a turn or was given a non-empty list. *)
Lemma equal_loop_outcome (fuel : nat) :
  forall start bs,
    (bs <> [] \/ start < total) ->
    (forall e, equal_loop fuel total min_d max_d start bs <> Raises e)
    /\ equal_loop fuel total min_d max_d start bs <> Returns [].
Proof.
  induction fuel as [| fuel IH]; intros start bs Hstate; simpl.
  - destruct (Qltb start total) eqn:Hgo.
    + split; [intros e |]; discriminate.
    + apply Qltb_ge in Hgo. destruct Hstate as [Hne | Hlt]; [| lra].
      split; [intros e; discriminate | congruence].
  - destruct (Qltb start total) eqn:Hgo.
    + destruct (equal_body_next start bs) as (bs' & -> & Hne).
      apply IH. left. exact Hne.
    + apply Qltb_ge in Hgo. destruct Hstate as [Hne | Hlt]; [| lra].
      split; [intros e; discriminate | congruence].
Qed.

(** With a positive maximum the loop returns once the fuel covers the
    distance still to walk, for every minimum. *)
Lemma equal_loop_terminates (fuel : nat) :
  0 < max_d ->
  forall start bs,
    start < total ->
    total - start <= inject_Z (Z.of_nat fuel) * max_d ->
    exists r,
      equal_loop fuel total min_d max_d start bs = Returns r /\ r <> [].
Proof.
  intros Hmax. induction fuel as [| fuel IH]; intros start bs Hlt Hfuel.
  - change (inject_Z (Z.of_nat 0)) with 0 in Hfuel. lra.
  - simpl. rewrite (proj2 (Qltb_lt start total) Hlt).
    destruct (equal_body_next start bs) as (bs' & -> & Hne).
    destruct (Qmin_cases (start + max_d) total) as [[Hm E] | [Hm E]];
      rewrite E.
    + destruct (Qlt_le_dec (start + max_d) total) as [Hgo | Hstop].
      * apply IH; [exact Hgo |]. rewrite Qnat_S in Hfuel. lra.
      * exists bs'. split; [apply equal_loop_done, Hstop | exact Hne].
    + exists bs'. split; [apply equal_loop_done, Qle_refl | exact Hne].
Qed.

Lemma equal_boundaries_returned :
  0 < total -> 0 < max_d ->
  exists bs,
    bs <> []
    /\ forall fuel, (equal_split_turns total max_d <= fuel)%nat ->
         _calculate_equal_boundaries fuel total min_d max_d = Returns bs.
Proof.
  intros Ht Hmax.
  assert (Hturns : total - 0
                   <= inject_Z (Z.of_nat (equal_split_turns total max_d))
                      * max_d).
  { apply (equal_split_turns_enough total max_d max_d); try lra.
    apply Nat.le_refl. }
  destruct (equal_loop_terminates _ Hmax 0 [] Ht Hturns) as (bs & Hrun & Hne).
  exists bs. split; [exact Hne |].
  intros fuel Hfuel. unfold _calculate_equal_boundaries.
  apply (equal_loop_more_fuel _ _ _ _ fuel _ _ _ Hfuel Hrun).
Qed.

End EqualSplitAnyWindow.

(** Scene detection never gets to read any output: the call of lines
    119-124 is refused, so the list of scene changes is empty. *)
Lemma scene_changes_always_empty (py_float : string -> option Q)
    (process : outcome string) :
  Scenes._detect_scene_changes py_float (Pipeline.scene_run_result process)
  = [].
Proof. reflexivity. Qed.





(** C2: for a positive total, whatever the scene detector's process
    would print, whatever the audio probe reports (malformed spans and
    failures included) and whatever the window, computing the
    boundaries never raises and never returns an empty list.  The scene
    detector yields no signal, the calculator goes on to the silence
    strategy, and when that yields nothing to the equal split.  With a
    positive maximum the computation does return. *)
Theorem boundaries_always_computed (fl : Q -> Q)
    (py_float : string -> option Q) (process : outcome string)
    (audio : option (list (Z * Z))) (min_d max_d total : Q) :
  (0 < total)%Q ->
  (forall fuel e,
     Pipeline.calculate_clip_boundaries_of_video fl py_float process audio
       fuel min_d max_d total <> Raises e)
  /\ (forall fuel,
        Pipeline.calculate_clip_boundaries_of_video fl py_float process audio
          fuel min_d max_d total <> Returns [])
  /\ Scenes._detect_scene_changes py_float (Pipeline.scene_run_result process)
     = []
  /\ (_detect_silence_boundaries fl audio min_d max_d <> [] ->
      forall fuel,
        Pipeline.calculate_clip_boundaries_of_video fl py_float process audio
          fuel min_d max_d total
        = Returns (_detect_silence_boundaries fl audio min_d max_d))
  /\ (_detect_silence_boundaries fl audio min_d max_d = [] ->
      forall fuel,
        Pipeline.calculate_clip_boundaries_of_video fl py_float process audio
          fuel min_d max_d total
        = _calculate_equal_boundaries fuel total min_d max_d)
  /\ ((0 < max_d)%Q ->
      exists bs,
        bs <> []
        /\ forall fuel, (equal_split_turns total max_d <= fuel)%nat ->
             Pipeline.calculate_clip_boundaries_of_video fl py_float process
               audio fuel min_d max_d total
             = Returns bs).
Proof.
  intros Ht.
  unfold Pipeline.calculate_clip_boundaries_of_video.
  unfold _calculate_clip_boundaries, calculate_clip_boundaries_with.
  simpl Scenes._detect_scene_changes.
  destruct (_detect_silence_boundaries fl audio min_d max_d) as [| b sb] eqn:Hs.
  - pose proof (fun fuel =>
                  equal_loop_outcome total min_d max_d fuel 0 []
                    (or_intror Ht)) as Hout.
    split; [intros fuel e; apply (proj1 (Hout fuel)) |].
    split; [intros fuel; apply (proj2 (Hout fuel)) |].
    split; [reflexivity |].
    split; [congruence |].
    split; [reflexivity |].
    intros Hmax. apply (equal_boundaries_returned total min_d max_d Ht Hmax).
  - split; [discriminate |]. split; [discriminate |].
    split; [reflexivity |].
    split; [reflexivity |].
    split; [discriminate |].
    intros _. exists (b :: sb). split; [discriminate | reflexivity].
Qed.

Lemma boundaries_always_computed_witness :
  exists bs,
    bs <> []
    /\ forall fuel, (equal_split_turns 125 60 <= fuel)%nat ->
         Pipeline.calculate_clip_boundaries_of_video Float64.binary64
           (fun _ => Some 1%Q) (Returns "frame pts_time:1.0")
           (Some [(5000, 2000); (0, 0)]%Z) fuel 30 60 125
         = Returns bs.
Proof.
  apply (boundaries_always_computed Float64.binary64
           (fun _ => Some 1%Q) (Returns "frame pts_time:1.0")
           (Some [(5000, 2000); (0, 0)]%Z) 30 60 125);
    reflexivity.
Defined.

(** ** [split_video]: what is checked on entry *)

(** C3, as amended: neither the total duration nor the window is
    validated.  With no scene signals and nothing from the silence
    strategy, a total [<= 0] gives the empty boundary list, and
    [split_video] returns an empty list of clips, without any error; a
    window with [0 < max < min] and a positive total gives the single
    interval from 0 to the total, again without error.  The only check
    on entry is that the video file exists. *)
Theorem duration_and_window_unchecked {Info : Type} (fl : Q -> Q)
    (_create_clip : nat -> Q -> Q -> option Info)
    (total min_d max_d : Q) (audio : option (list (Z * Z))) :
  _detect_silence_boundaries fl audio min_d max_d = [] ->
  ((total <= 0)%Q ->
     forall fuel,
       _calculate_clip_boundaries fl fuel [] audio min_d max_d total
       = Returns []
       /\ split_video fl _create_clip fuel true total (min_d, max_d) [] audio
          = Returns [])
  /\ ((0 < total)%Q -> (0 < max_d)%Q -> (max_d < min_d)%Q ->
      exists e,
        (e == total)%Q
        /\ forall fuel, (equal_split_turns total max_d <= fuel)%nat ->
             _calculate_clip_boundaries fl fuel [] audio min_d max_d total
             = Returns [(0%Q, e)]
             /\ split_video fl _create_clip fuel true total (min_d, max_d)
                  [] audio
                = Returns (snd (clip_body _create_clip (O, []) (0%Q, e))))
  /\ (forall fuel scenes,
        split_video fl _create_clip fuel false total (min_d, max_d)
          scenes audio
        = Raises FileNotFoundError).
Proof.
  intros Hs.
  assert (Hcalc : forall fuel,
            _calculate_clip_boundaries fl fuel [] audio min_d max_d total
            = _calculate_equal_boundaries fuel total min_d max_d).
  { intros fuel.
    unfold _calculate_clip_boundaries, calculate_clip_boundaries_with.
    rewrite Hs. reflexivity. }
  split; [| split; [| reflexivity]].
  - intros Ht fuel.
    pose proof (equal_split_nothing_to_cut fuel total min_d max_d Ht) as E.
    rewrite <- Hcalc in E. split; [exact E |].
    unfold split_video. cbn [negb fst snd]. rewrite E. reflexivity.
  - intros Ht Hmax Hinv.
    destruct (inverted_window_single_interval total min_d max_d Hmax Hinv Ht)
      as (e & Hrun & He).
    exists e. split; [exact He |]. intros fuel Hf.
    specialize (Hrun fuel Hf). rewrite <- Hcalc in Hrun.
    split; [exact Hrun |].
    unfold split_video. cbn [negb fst snd]. rewrite Hrun. reflexivity.
Qed.

Lemma duration_and_window_unchecked_witness :
  (forall fuel,
     _calculate_clip_boundaries Float64.binary64 fuel [] None 30 60 0
     = Returns []
     /\ split_video Float64.binary64 (fun _ _ _ => Some tt) fuel true 0
          (30%Q, 60%Q) [] None
        = Returns [])
  /\ exists e,
       (e == 125)%Q
       /\ forall fuel, (equal_split_turns 125 30 <= fuel)%nat ->
            _calculate_clip_boundaries Float64.binary64 fuel [] None 60 30 125
            = Returns [(0%Q, e)]
            /\ split_video Float64.binary64 (fun _ _ _ => Some tt) fuel true
                 125 (60%Q, 30%Q) [] None
               = Returns (snd (clip_body (fun _ _ _ => Some tt)
                                 (O, []) (0%Q, e))).
Proof.
  split.
  - apply (duration_and_window_unchecked Float64.binary64
             (fun _ _ _ => Some tt) 0 30 60 None);
      reflexivity || (vm_compute; discriminate).
  - apply (duration_and_window_unchecked Float64.binary64
             (fun _ _ _ => Some tt) 125 60 30 None);
      reflexivity || (vm_compute; discriminate).
Defined.

(** C3 as stated fails: a total duration of 0 raises nothing and the
    caller silently receives an empty list; a window with the minimum
    above the maximum raises nothing either and yields one clip that is
    longer than the maximum. *)
Lemma zero_duration_returns_silently :
  split_video Float64.binary64 (fun _ _ _ => Some tt) 0 true 0
    (30%Q, 60%Q) [] None
  = Returns []
  /\ _calculate_clip_boundaries Float64.binary64 5 [] None 60 30 125
     = Returns [(0%Q, 125%Q)].
Proof. split; vm_compute; reflexivity. Qed.

(** ** The transcript parser *)

Section Parser.

(** A block raises exactly when it has at least three lines and its
    second line does not split into two parts around the arrow. *)
Lemma parse_block_raises (block : string) :
  let lines := split newline (strip block) in
  (exists e, parse_block block = Raises e)
  <-> (3 <= length lines)%nat
      /\ length (split " --> " (nth 1 lines EmptyString)) <> 2%nat.
Proof.
  intros lines. unfold parse_block. fold lines.
  destruct (3 <=? length lines)%nat eqn:Hlen.
  - apply Nat.leb_le in Hlen.
    destruct (split " --> " (nth 1 lines EmptyString))
      as [| a [| b [| c l]]]; simpl; split;
      try (intros [e He]; discriminate He);
      try (intros [_ H]; exfalso; apply H; reflexivity);
      try (intros _; split; [exact Hlen | discriminate]);
      intros _; exists ValueError; reflexivity.
  - apply Nat.leb_gt in Hlen. split.
    + intros [e He]. discriminate He.
    + intros [H _]. lia.
Qed.

(** The loop stops at the first block that raises: what the earlier
    blocks gave is kept, the later blocks are never read. *)
Lemma parse_blocks_stop (pre : list string) :
  forall bad post acc e,
    Forall (fun b => exists r, parse_block b = Returns r) pre ->
    parse_block bad = Raises e ->
    parse_blocks (pre ++ bad :: post) acc = parse_blocks pre acc.
Proof.
  induction pre as [| b pre IH]; intros bad post acc e Hpre Hbad; simpl.
  - rewrite Hbad. reflexivity.
  - inversion Hpre as [| ? ? [r Hr] Hpre']; subst. rewrite Hr.
    destruct r as [sub |]; eapply IH; eassumption.
Qed.

End Parser.

(** C8, as amended: a block of at least three lines whose second line
    does not split into exactly two parts around [" --> "] ends the
    parse: the entries of the blocks before it are returned, and that
    block and every block after it are dropped, without an error.  A
    block of fewer than three lines is skipped and parsing continues.
    A transcript that cannot be read yields the empty list rather than
    an error. *)
Theorem parse_stops_at_first_bad_block :
  (forall pre bad post acc,
     Forall (fun b => exists r, parse_block b = Returns r) pre ->
     (3 <= length (split newline (strip bad)))%nat ->
     length (split " --> "
               (nth 1 (split newline (strip bad)) EmptyString)) <> 2%nat ->
     parse_blocks (pre ++ bad :: post) acc = parse_blocks pre acc)
  /\ (forall block rest acc,
        (length (split newline (strip block)) < 3)%nat ->
        parse_blocks (block :: rest) acc = parse_blocks rest acc)
  /\ _parse_srt_file None = [].
Proof.
  split; [| split; [| reflexivity]].
  - intros pre bad post acc Hpre Hlen Harrow.
    destruct (proj2 (parse_block_raises bad) (conj Hlen Harrow)) as [e He].
    apply (parse_blocks_stop pre bad post acc e Hpre He).
  - intros block rest acc Hlen. simpl. unfold parse_block.
    apply Nat.leb_gt in Hlen. rewrite Hlen. reflexivity.
Qed.

Lemma parse_stops_at_first_bad_block_witness :
  parse_blocks
    (["1
00:00:01,000 --> 00:00:02,000
first"]
     ++ "2
no arrow here
second"
     :: ["3
00:00:05,000 --> 00:00:06,000
third"]) []
  = parse_blocks
      ["1
00:00:01,000 --> 00:00:02,000
first"] [].
Proof.
  apply (proj1 parse_stops_at_first_bad_block).
  - repeat constructor. eexists. vm_compute. reflexivity.
  - vm_compute. lia.
  - vm_compute. discriminate.
Defined.

(** C8 as stated fails: in a transcript of three blocks whose second
    block has no arrow on its time line, the third block is lost along
    with the second, although the same transcript without the second
    block yields both entries. *)
Lemma bad_block_drops_the_rest :
  _parse_srt_file (Some "1
00:00:01,000 --> 00:00:02,000
first

2
no arrow here
second

3
00:00:05,000 --> 00:00:06,000
third
")
  = [{| sub_start := 1.000; sub_end := 2.000; sub_text := "first" |}]
  /\ _parse_srt_file (Some "1
00:00:01,000 --> 00:00:02,000
first

3
00:00:05,000 --> 00:00:06,000
third
")
     = [{| sub_start := 1.000; sub_end := 2.000; sub_text := "first" |};
        {| sub_start := 5.000; sub_end := 6.000; sub_text := "third" |}].
Proof. split; vm_compute; reflexivity. Qed.

(** C10: a time token that does not split into three fields on [":"],
    whose last field does not split into two on [","], or one of whose
    four parts is not an integer, is turned into 0 seconds by
    [_time_to_seconds]; the block that carries it is emitted all the
    same.  So the parser returns entries with [start == end == 0] and
    entries with [end < start]. *)
Theorem malformed_time_token_is_zero :
  (forall time_str,
     length (split ":" time_str) <> 3%nat ->
     _time_to_seconds time_str = 0%Q)
  /\ (forall time_str h m s,
        split ":" time_str = [h; m; s] ->
        length (split "," s) <> 2%nat ->
        _time_to_seconds time_str = 0%Q)
  /\ (forall time_str h m s s' ms,
        split ":" time_str = [h; m; s] ->
        split "," s = [s'; ms] ->
        py_int h = None \/ py_int m = None
        \/ py_int s' = None \/ py_int ms = None ->
        _time_to_seconds time_str = 0%Q)
  /\ (forall block start_str end_str,
        (3 <= length (split newline (strip block)))%nat ->
        split " --> " (nth 1 (split newline (strip block)) EmptyString)
        = [start_str; end_str] ->
        parse_block block
        = Returns (Some {| sub_start := _time_to_seconds start_str;
                           sub_end := _time_to_seconds end_str;
                           sub_text :=
                             join " " (skipn 2
                                         (split newline (strip block))) |}))
  /\ _parse_srt_file (Some "1
00:00:01 --> 0:00:02.500
hello
")
     = [{| sub_start := 0; sub_end := 0; sub_text := "hello" |}]
  /\ _parse_srt_file (Some "1
00:00:05,000 --> 00:00:0x,000
hello
")
     = [{| sub_start := 5.000; sub_end := 0; sub_text := "hello" |}].
Proof.
  split; [| split; [| split; [| split; [| split]]]];
    try (vm_compute; reflexivity).
  - intros time_str H. unfold _time_to_seconds, time_fields.
    destruct (split ":" time_str) as [| a [| b [| c [| d l]]]];
      try reflexivity.
    exfalso. apply H. reflexivity.
  - intros time_str h m s E H. unfold _time_to_seconds, time_fields.
    rewrite E. destruct (split "," s) as [| a [| b [| c l]]]; try reflexivity.
    exfalso. apply H. reflexivity.
  - intros time_str h m s s' ms E1 E2 H.
    unfold _time_to_seconds, time_fields. rewrite E1, E2.
    destruct (py_int h), (py_int m), (py_int s'), (py_int ms);
      try reflexivity.
    destruct H as [H | [H | [H | H]]]; discriminate H.
  - intros block start_str end_str Hlen Harrow. unfold parse_block.
    apply Nat.leb_le in Hlen. rewrite Hlen, Harrow. reflexivity.
Qed.

Lemma malformed_time_token_is_zero_witness :
  _time_to_seconds "00:01" = 0%Q
  /\ _time_to_seconds "0:00:02.500" = 0%Q
  /\ _time_to_seconds "00:00:0x,000" = 0%Q.
Proof.
  split; [| split].
  - apply (proj1 malformed_time_token_is_zero). vm_compute. discriminate.
  - apply (proj1 (proj2 malformed_time_token_is_zero)
             "0:00:02.500" "0" "00" "02.500");
      [reflexivity | vm_compute; discriminate].
  - apply (proj1 (proj2 (proj2 malformed_time_token_is_zero))
             "00:00:0x,000" "00" "00" "0x,000" "0x" "000");
      [reflexivity | reflexivity |].
    right. right. left. reflexivity.
Defined.

(** * Further properties of the code *)

Import Scenes Clips Utils Downloader.

(** ** Styles and qualities: names that are not in the table *)

(** X1: a style name other than the four in the tables resolves to the
    values stored for "standard": size 28, white text, Arial, a black
    stroke of width 1. *)
Theorem unknown_style_is_standard (style : string) :
  style <> "standard" -> style <> "minimal" ->
  style <> "bold" -> style <> "outline" ->
  Style.resolve_style style = Style.resolve_style "standard"
  /\ Style.resolve_style style
     = {| Style.fontsize := 28;
          Style.color := "white";
          Style.font := "Arial";
          Style.stroke_color := Some "black";
          Style.stroke_width := 1 |}.
Proof.
  intros H1 H2 H3 H4.
  assert (E : Style.resolve_style style
              = {| Style.fontsize := 28;
                   Style.color := "white";
                   Style.font := "Arial";
                   Style.stroke_color := Some "black";
                   Style.stroke_width := 1 |}).
  { unfold Style.resolve_style, Style._get_font_size, Style._get_text_color,
      Style._get_font, Style._get_stroke_color, Style._get_stroke_width,
      Style.sizes, Style.text_colors, Style.fonts, Style.stroke_colors,
      Style.widths.
    rewrite !lookup_insert_ne, !lookup_empty by congruence. reflexivity. }
  split; [rewrite E; vm_compute; reflexivity | exact E].
Qed.

Lemma unknown_style_is_standard_witness :
  Style.resolve_style "karaoke" = Style.resolve_style "standard"
  /\ Style.resolve_style "karaoke"
     = {| Style.fontsize := 28;
          Style.color := "white";
          Style.font := "Arial";
          Style.stroke_color := Some "black";
          Style.stroke_width := 1 |}.
Proof. apply (unknown_style_is_standard "karaoke"); discriminate. Defined.

(** X2: a quality name other than the five in the map selects the
    format of "best"; the selector is never missing. *)
Theorem unknown_quality_is_best (quality : string) :
  quality <> "best" -> quality <> "1080p" -> quality <> "720p" ->
  quality <> "480p" -> quality <> "360p" ->
  _get_format_selector quality = _get_format_selector "best"
  /\ _get_format_selector quality
     = Some "bestvideo[ext=mp4]+bestaudio[ext=m4a]/best[ext=mp4]/best".
Proof.
  intros H1 H2 H3 H4 H5.
  assert (E : _get_format_selector quality
              = Some "bestvideo[ext=mp4]+bestaudio[ext=m4a]/best[ext=mp4]/best").
  { unfold _get_format_selector, quality_map.
    rewrite lookup_insert_eq. simpl.
    rewrite !lookup_insert_ne, lookup_empty by congruence. reflexivity. }
  split; [rewrite E; vm_compute; reflexivity | exact E].
Qed.

Lemma unknown_quality_is_best_witness :
  _get_format_selector "4k" = _get_format_selector "best"
  /\ _get_format_selector "4k"
     = Some "bestvideo[ext=mp4]+bestaudio[ext=m4a]/best[ext=mp4]/best".
Proof. apply (unknown_quality_is_best "4k"); discriminate. Defined.

(** ** Captions of one clip *)

Section ClipCaptions.

Local Open Scope Q_scope.

Lemma text_clip_loop_acc (caption_style : string)
    (clip_subtitles : list subtitle) (acc : list text_clip) :
  fold_left (text_clip_body caption_style) clip_subtitles acc
  = acc ++ map (fun sub =>
                  {| tc_text := sub_text sub;
                     tc_style := Style.resolve_style caption_style;
                     tc_duration := sub_end sub - sub_start sub;
                     tc_start := sub_start sub |}) clip_subtitles.
Proof.
  revert acc. induction clip_subtitles as [| sub subs IH]; intros acc; simpl.
  - symmetry. apply app_nil_r.
  - rewrite IH. unfold text_clip_body. rewrite <- app_assoc. reflexivity.
Qed.

(** An entry that overlaps the clip and ends after it starts keeps a
    positive length once shifted and clamped. *)
Lemma adj_sub_positive (start_time clip_duration : Q) (sub : subtitle) :
  0 < clip_duration -> sub_start sub < sub_end sub ->
  in_clip start_time clip_duration sub = true ->
  sub_start (adj_sub start_time clip_duration sub)
  < sub_end (adj_sub start_time clip_duration sub).
Proof.
  intros Hcd Hsub Hin. apply in_clip_overlap in Hin as [H1 H2].
  unfold adj_sub. simpl.
  destruct (Qmax_cases 0 (sub_start sub - start_time)) as [[Ha ->] | [Ha ->]];
    destruct (Qmin_cases clip_duration (sub_end sub - start_time))
      as [[Hb ->] | [Hb ->]]; lra.
Qed.

Lemma filter_nothing {A : Type} (f : A -> bool) (l : list A) :
  Forall (fun x => f x = false) l -> List.filter f l = [].
Proof.
  induction 1 as [| x l Hx _ IH]; simpl; [reflexivity |].
  rewrite Hx. exact IH.
Qed.

End ClipCaptions.

(** X3: every aligned entry lies inside its clip: its local start is
    never negative and its local end never exceeds the clip's
    duration. *)
Theorem aligned_entries_within_clip (subtitles : list subtitle)
    (start_time clip_duration : Q) (out : subtitle) :
  In out (clip_subtitles_of subtitles start_time clip_duration) ->
  (0 <= sub_start out)%Q /\ (sub_end out <= clip_duration)%Q.
Proof. apply clip_subtitles_clamped. Qed.

Lemma aligned_entries_within_clip_witness :
  (0 <= sub_start {| sub_start := 0; sub_end := 3; sub_text := "hello" |})%Q
  /\ (sub_end {| sub_start := 0; sub_end := 3; sub_text := "hello" |}
      <= 60)%Q.
Proof.
  apply (aligned_entries_within_clip
           [{| sub_start := 58; sub_end := 63; sub_text := "hello" |}] 60 60).
  vm_compute. left. reflexivity.
Defined.

(** X4: an entry that runs across the cut between two adjacent clips
    [(a, b)] and [(b, c)] is shown in both: in the first it is cut off
    at the clip's end, in the second it starts at local time 0. *)
Theorem entry_across_a_cut (subtitles : list subtitle) (sub : subtitle)
    (a b c : Q) :
  In sub subtitles ->
  (a < b)%Q -> (b < c)%Q ->
  (sub_start sub < b)%Q -> (b < sub_end sub)%Q ->
  In (adj_sub a (b - a) sub) (clip_subtitles_of subtitles a (b - a))
  /\ (sub_end (adj_sub a (b - a) sub) == b - a)%Q
  /\ In (adj_sub b (c - b) sub) (clip_subtitles_of subtitles b (c - b))
  /\ sub_start (adj_sub b (c - b) sub) = 0%Q.
Proof.
  intros Hin Hab Hbc Hs He.
  rewrite !clip_subtitles_of_filter_map.
  assert (H1 : in_clip a (b - a) sub = true)
    by (apply in_clip_overlap; split; lra).
  assert (H2 : in_clip b (c - b) sub = true)
    by (apply in_clip_overlap; split; lra).
  split; [apply in_map, filter_In; split; assumption |].
  split.
  { unfold adj_sub. simpl.
    destruct (Qmin_cases (b - a) (sub_end sub - a)) as [[_ ->] | [H _]];
      [reflexivity | lra]. }
  split; [apply in_map, filter_In; split; assumption |].
  unfold adj_sub. simpl.
  destruct (Qmax_cases 0 (sub_start sub - b)) as [[_ ->] | [H _]];
    [reflexivity | lra].
Qed.

Lemma entry_across_a_cut_witness :
  In (adj_sub 0 (60 - 0)
        {| sub_start := 58; sub_end := 63; sub_text := "hello" |})
     (clip_subtitles_of
        [{| sub_start := 58; sub_end := 63; sub_text := "hello" |}]
        0 (60 - 0))
  /\ (sub_end (adj_sub 0 (60 - 0)
                 {| sub_start := 58; sub_end := 63; sub_text := "hello" |})
      == 60 - 0)%Q
  /\ In (adj_sub 60 (125 - 60)
           {| sub_start := 58; sub_end := 63; sub_text := "hello" |})
        (clip_subtitles_of
           [{| sub_start := 58; sub_end := 63; sub_text := "hello" |}]
           60 (125 - 60))
  /\ sub_start (adj_sub 60 (125 - 60)
                  {| sub_start := 58; sub_end := 63; sub_text := "hello" |})
     = 0%Q.
Proof.
  apply (entry_across_a_cut
           [{| sub_start := 58; sub_end := 63; sub_text := "hello" |}]
           {| sub_start := 58; sub_end := 63; sub_text := "hello" |}
           0 60 125);
    [left; reflexivity | reflexivity ..].
Defined.

(** X5: [_add_captions_to_clip] hands back the clip unchanged exactly
    when no parsed entry overlaps the clip; otherwise it overlays one
    text clip per overlapping entry, in transcript order, all in the
    resolved style.  When the clip has a positive duration and every
    parsed entry ends after it starts, each text clip is shown for a
    positive time and lies inside the clip. *)
Theorem captions_of_a_clip (content : option string)
    (start_time clip_duration : Q) (caption_style : string) :
  let aligned :=
    clip_subtitles_of (_parse_srt_file content) start_time clip_duration in
  (_add_captions_to_clip content start_time clip_duration caption_style
   = Plain
   <-> Forall (fun sub => in_clip start_time clip_duration sub = false)
         (_parse_srt_file content))
  /\ (forall text_clips,
        _add_captions_to_clip content start_time clip_duration caption_style
        = Composite text_clips ->
        length text_clips = length aligned
        /\ map tc_text text_clips = map sub_text aligned
        /\ Forall (fun tc => tc_style tc = Style.resolve_style caption_style)
             text_clips
        /\ ((0 < clip_duration)%Q ->
            Forall (fun sub => (sub_start sub < sub_end sub)%Q)
              (_parse_srt_file content) ->
            Forall (fun tc => (0 < tc_duration tc)%Q
                              /\ (0 <= tc_start tc)%Q
                              /\ (tc_start tc + tc_duration tc
                                  <= clip_duration)%Q) text_clips)).
Proof.
  intros aligned. unfold _add_captions_to_clip. fold aligned.
  rewrite text_clip_loop_acc. simpl app.
  assert (Haligned : aligned
                     = map (adj_sub start_time clip_duration)
                         (List.filter (in_clip start_time clip_duration)
                            (_parse_srt_file content)))
    by apply clip_subtitles_of_filter_map.
  split.
  - split.
    + intros H. destruct aligned as [| x l] eqn:E; [| discriminate H].
      symmetry in Haligned. apply map_eq_nil in Haligned.
      apply List.Forall_forall. intros sub Hin.
      destruct (in_clip start_time clip_duration sub) eqn:Hc; [| reflexivity].
      assert (Hf : In sub (List.filter (in_clip start_time clip_duration)
                             (_parse_srt_file content)))
        by (apply filter_In; split; assumption).
      rewrite Haligned in Hf. destruct Hf.
    + intros H. rewrite Haligned, (filter_nothing _ _ H). reflexivity.
  - intros text_clips H.
    assert (E : text_clips
                = map (fun sub =>
                         {| tc_text := sub_text sub;
                            tc_style := Style.resolve_style caption_style;
                            tc_duration := (sub_end sub - sub_start sub)%Q;
                            tc_start := sub_start sub |}) aligned).
    { destruct aligned; simpl in H |- *; [discriminate H |].
      injection H as <-. reflexivity. }
    subst text_clips.
    split; [apply length_map |].
    split; [rewrite map_map; reflexivity |].
    split; [apply Forall_map, List.Forall_forall; intros; reflexivity |].
    intros Hcd Hproper. apply Forall_map, List.Forall_forall. intros out Hout.
    simpl.
    pose proof (clip_subtitles_clamped _ _ _ _ Hout) as [H0 H1].
    fold aligned in Hout. rewrite Haligned in Hout.
    apply in_map_iff in Hout as (sub & <- & Hf).
    apply filter_In in Hf as [Hin Hc].
    rewrite List.Forall_forall in Hproper.
    pose proof (adj_sub_positive start_time clip_duration sub Hcd
                  (Hproper sub Hin) Hc) as Hpos.
    lra.
Qed.

Lemma captions_of_a_clip_witness :
  Forall (fun tc => (0 < tc_duration tc)%Q
                    /\ (0 <= tc_start tc)%Q
                    /\ (tc_start tc + tc_duration tc <= 60)%Q)
    [{| tc_text := "hello";
        tc_style := Style.resolve_style "minimal";
        tc_duration := (3.000 - 0)%Q;
        tc_start := 0 |}].
Proof.
  apply (proj2 (captions_of_a_clip (Some "1
00:00:58,000 --> 00:01:03,000
hello") 60 60 "minimal")).
  - vm_compute. reflexivity.
  - reflexivity.
  - vm_compute. repeat constructor.
Defined.

(** ** The equal split on any input *)

Section EqualSplitAnyInput.

Local Open Scope Q_scope.

Variables total min_d max_d : Q.

(** The [pop] at line 206 is only reached with a non-empty list. *)
Lemma equal_body_returns (start : Q) (bs : list boundary) :
  exists start' bs',
    equal_body total min_d max_d start bs = Returns (start', bs')
    /\ (length bs' <= S (length bs))%nat.
Proof.
  unfold equal_body.
  destruct (Qltb (Qmin (start + max_d) total - start) min_d
            && (0 <? length bs)%nat) eqn:Hmerge.
  - apply andb_true_iff in Hmerge as [_ Hlen].
    destruct (pop_nonempty _ Hlen) as (rest & [ps pe] & ->).
    rewrite pop_snoc. eexists _, _. split; [reflexivity |].
    rewrite !length_app. simpl. lia.
  - eexists _, _. split; [reflexivity |].
    rewrite length_app. simpl. lia.
Qed.

Lemma equal_loop_no_exception (fuel : nat) :
  forall start bs e,
    equal_loop fuel total min_d max_d start bs <> Raises e.
Proof.
  induction fuel as [| fuel IH]; intros start bs e; simpl;
    destruct (Qltb start total); try discriminate.
  destruct (equal_body_returns start bs) as (start' & bs' & -> & _).
  apply IH.
Qed.

(** Each turn adds at most one interval. *)
Lemma equal_loop_length (fuel : nat) :
  forall start bs r,
    equal_loop fuel total min_d max_d start bs = Returns r ->
    (length r <= length bs + fuel)%nat.
Proof.
  induction fuel as [| fuel IH]; intros start bs r; simpl;
    destruct (Qltb start total); try discriminate;
    try (intros [= <-]; lia).
  destruct (equal_body_returns start bs) as (start' & bs' & -> & Hlen).
  intros H. apply IH in H. lia.
Qed.

End EqualSplitAnyInput.

(** X6: on no input does the equal split raise: the [pop] of line 206
    is guarded by the length test, so the only outcomes are a returned
    list or a loop that is still running. *)
Theorem equal_split_never_raises (fuel : nat) (total min_d max_d : Q)
    (e : exn) :
  _calculate_equal_boundaries fuel total min_d max_d <> Raises e.
Proof. apply equal_loop_no_exception. Qed.

(** X7: with a positive total and a maximum that is zero or negative
    the walk never advances, so the loop never ends: whatever the fuel,
    neither the equal split nor the calculator without signals
    returns. *)
Theorem equal_split_hangs (fuel : nat) (total min_d max_d : Q) :
  (0 < total)%Q -> (max_d <= 0)%Q ->
  _calculate_equal_boundaries fuel total min_d max_d = OutOfFuel
  /\ (forall fl,
        _calculate_clip_boundaries fl fuel [] None min_d max_d total
        = OutOfFuel).
Proof.
  intros Ht Hmax.
  assert (E : _calculate_equal_boundaries fuel total min_d max_d = OutOfFuel)
    by (apply equal_loop_stuck; assumption).
  split; [exact E |]. intros fl.
  unfold _calculate_clip_boundaries, calculate_clip_boundaries_with.
  simpl. exact E.
Qed.

Lemma equal_split_hangs_witness :
  _calculate_equal_boundaries 1000 125 0 0 = OutOfFuel
  /\ (forall fl,
        _calculate_clip_boundaries fl 1000 [] None 0 0 125 = OutOfFuel).
Proof.
  apply (equal_split_hangs 1000 125 0 0);
    [reflexivity | vm_compute; discriminate].
Defined.

Section EqualSplitShape.

Local Open Scope Q_scope.

(** In a gap-free run whose intervals are all [step] long, the [k]-th
    interval starts [k] steps after the first. *)
Lemma linked_nth_start (step : Q) (front : list boundary) :
  forall s e last_b k b,
    linked s (front ++ [last_b]) e ->
    Forall (fun b => duration b == step) front ->
    nth_error (front ++ [last_b]) k = Some b ->
    fst b == s + inject_Z (Z.of_nat k) * step.
Proof.
  induction front as [| c front IH]; intros s e last_b k b Hl Hd Hk.
  - destruct k as [| k]; simpl in Hk.
    + injection Hk as <-. destruct Hl as [Hl _]. rewrite Hl.
      change (inject_Z (Z.of_nat 0)) with 0. ring.
    + destruct k; discriminate Hk.
  - destruct Hl as [Hs Hl]. inversion Hd as [| ? ? Hc Hd']; subst.
    destruct k as [| k]; simpl in Hk.
    + injection Hk as <-. rewrite Hs.
      change (inject_Z (Z.of_nat 0)) with 0. ring.
    + rewrite (IH (snd c) e last_b k b Hl Hd' Hk), Qnat_S.
      unfold duration in Hc. lra.
Qed.

End EqualSplitShape.

(** X8: for a positive total and a window of whole seconds
    [0 < min <= max] (the window is a pair of ints in the source), the
    equal split returns at least one and at most [ceil(total / max)]
    intervals, and the interval at position [k] (from 0) starts at
    [k * max]. *)
Theorem equal_split_starts (total : Q) (min_i max_i : Z) :
  (0 < total)%Q -> (0 < min_i)%Z -> (min_i <= max_i)%Z ->
  exists bs,
    (forall fuel,
       (equal_split_turns total (inject_Z max_i) <= fuel)%nat ->
       _calculate_equal_boundaries fuel total (inject_Z min_i)
         (inject_Z max_i) = Returns bs)
    /\ (1 <= length bs
        <= Z.to_nat (Qceiling (total / inject_Z max_i)))%nat
    /\ (forall k b,
          nth_error bs k = Some b ->
          (fst b == inject_Z (Z.of_nat k * max_i))%Q).
Proof.
  intros Ht Hmin Hle.
  assert (Hmin' : (0 < inject_Z min_i)%Q)
    by (change 0%Q with (inject_Z 0); rewrite <- Zlt_Qlt; exact Hmin).
  assert (Hle' : (inject_Z min_i <= inject_Z max_i)%Q)
    by (rewrite <- Zle_Qle; exact Hle).
  destruct (equal_boundaries_post total (inject_Z min_i) (inject_Z max_i)
              Ht Hmin' Hle')
    as (bs & Hrun & [Hl _] & front & last_b & -> & Hd & _).
  exists (front ++ [last_b]). split; [exact Hrun |]. split.
  - split; [rewrite length_app; simpl; lia |].
    pose proof (equal_loop_length total (inject_Z min_i) (inject_Z max_i)
                  _ _ _ _ (Hrun _ (Nat.le_refl _))) as Hlen.
    simpl in Hlen. exact Hlen.
  - intros k b Hk.
    rewrite (linked_nth_start (inject_Z max_i) front 0 total last_b k b
               Hl Hd Hk).
    rewrite inject_Z_mult. ring.
Qed.

Lemma equal_split_starts_witness :
  exists bs,
    (forall fuel, (equal_split_turns 125 (inject_Z 60) <= fuel)%nat ->
       _calculate_equal_boundaries fuel 125 (inject_Z 30) (inject_Z 60)
       = Returns bs)
    /\ (1 <= length bs <= Z.to_nat (Qceiling (125 / inject_Z 60)))%nat
    /\ (forall k b,
          nth_error bs k = Some b ->
          (fst b == inject_Z (Z.of_nat k * 60))%Q).
Proof.
  apply (equal_split_starts 125 30 60); reflexivity || lia.
Defined.

(** ** The silence strategy on a whole list of spans *)

Section SilenceResult.

Local Open Scope Q_scope.

Variable fl : Q -> Q.
Variables min_d max_d : Q.

(** Spans shorter than the minimum leave the state as it is. *)
Lemma silence_loop_short (chunks : list (Z * Z)) :
  forall st,
    Forall (fun c => fl (inject_Z (snd c - fst c) / 1000) < min_d) chunks ->
    silence_loop fl min_d max_d chunks st = Returns st.
Proof.
  induction chunks as [| [a b] chunks IH]; intros st Hshort;
    [reflexivity |].
  inversion Hshort as [| ? ? Hc Hcs]; subst. simpl in Hc.
  change (silence_loop fl min_d max_d ((a, b) :: chunks) st)
    with (bind (silence_body fl min_d max_d st (a, b))
            (silence_loop fl min_d max_d chunks)).
  unfold silence_body.
  rewrite (proj2 (Qle_bool_gt min_d _) Hc). simpl. apply IH, Hcs.
Qed.

End SilenceResult.

(** X9: when every non-silent span is shorter than the minimum, the
    silence strategy yields nothing, whatever the window, and the
    calculator returns what the equal split returns. *)
Theorem short_spans_fall_back_to_equal_split (fl : Q -> Q) (min_d max_d : Q)
    (chunks : list (Z * Z)) :
  Forall (fun c => (fl (inject_Z (snd c - fst c) / 1000) < min_d)%Q) chunks ->
  _detect_silence_boundaries fl (Some chunks) min_d max_d = []
  /\ forall fuel total,
       _calculate_clip_boundaries fl fuel [] (Some chunks) min_d max_d total
       = _calculate_equal_boundaries fuel total min_d max_d.
Proof.
  intros Hshort.
  assert (E : _detect_silence_boundaries fl (Some chunks) min_d max_d = []).
  { unfold _detect_silence_boundaries.
    rewrite (silence_loop_short fl min_d max_d chunks _ Hshort).
    reflexivity. }
  split; [exact E |]. intros fuel total.
  unfold _calculate_clip_boundaries, calculate_clip_boundaries_with.
  rewrite E. reflexivity.
Qed.

Lemma short_spans_fall_back_to_equal_split_witness :
  _detect_silence_boundaries Float64.binary64
    (Some [(0, 20000); (21000, 41000)]%Z) 30 60 = []
  /\ forall fuel total,
       _calculate_clip_boundaries Float64.binary64 fuel []
         (Some [(0, 20000); (21000, 41000)]%Z) 30 60 total
       = _calculate_equal_boundaries fuel total 30 60.
Proof.
  apply (short_spans_fall_back_to_equal_split Float64.binary64 30 60
           [(0, 20000); (21000, 41000)]%Z).
  repeat constructor.
Defined.

(** ** Clips made from the boundaries *)

Section ClipLoop.

Context {Info : Type}.
Variable _create_clip : nat -> Q -> Q -> option Info.

Lemma clip_loop_acc (bs : list boundary) :
  forall i acc,
    snd (fold_left (clip_body _create_clip) bs (i, acc))
    = acc ++ flat_map
               (fun nb => match _create_clip (fst nb) (fst (snd nb))
                                  (snd (snd nb)) with
                          | Some clip_info => [clip_info]
                          | None => []
                          end)
               (combine (seq (i + 1) (length bs)) bs).
Proof.
  induction bs as [| b bs IH]; intros i acc; simpl.
  - symmetry. apply app_nil_r.
  - destruct (_create_clip (i + 1) (fst b) (snd b)) as [clip_info |];
      rewrite IH; simpl.
    + rewrite <- app_assoc. reflexivity.
    + reflexivity.
Qed.

End ClipLoop.

(** X11: [split_video] returns the clips of exactly those boundaries for
    which [_create_clip] succeeds, in boundary order.  A failure only
    drops its own clip: the boundary at position [k] (from 1) is always
    created with clip number [k], and no error reaches the caller.  So
    there are never more clips than boundaries. *)
Theorem clip_failures_are_isolated {Info : Type} (fl : Q -> Q)
    (_create_clip : nat -> Q -> Q -> option Info) (fuel : nat)
    (total : Q) (clip_duration : Q * Q) (scenes : list Q)
    (audio : option (list (Z * Z))) (bs : list boundary) :
  _calculate_clip_boundaries fl fuel scenes audio
    (fst clip_duration) (snd clip_duration) total = Returns bs ->
  exists clips,
    split_video fl _create_clip fuel true total clip_duration scenes audio
    = Returns clips
    /\ clips
       = flat_map
           (fun nb => match _create_clip (fst nb) (fst (snd nb))
                              (snd (snd nb)) with
                      | Some clip_info => [clip_info]
                      | None => []
                      end)
           (combine (seq 1 (length bs)) bs)
    /\ (length clips <= length bs)%nat.
Proof.
  intros Hbs. unfold split_video. cbn [negb]. rewrite Hbs. simpl bind.
  eexists. split; [reflexivity |].
  rewrite clip_loop_acc. simpl app. split; [reflexivity |].
  clear Hbs. generalize 1%nat.
  induction bs as [| b bs IH]; intros n; simpl; [lia |].
  rewrite length_app. specialize (IH (S n)).
  destruct (_create_clip n (fst b) (snd b)); simpl; lia.
Qed.

Lemma clip_failures_are_isolated_witness :
  exists clips,
    split_video Float64.binary64
      (fun n _ _ => if (n =? 1)%nat then None else Some n)
      3 true 125 (30%Q, 60%Q) [] None
    = Returns clips
    /\ clips
       = flat_map
           (fun nb => match (if (fst nb =? 1)%nat then None
                             else Some (fst nb)) with
                      | Some clip_info => [clip_info]
                      | None => []
                      end)
           (combine (seq 1 (length [(0%Q, 60%Q); (60%Q, 125%Q)]))
              [(0%Q, 60%Q); (60%Q, 125%Q)])
    /\ (length clips <= length [(0%Q, 60%Q); (60%Q, 125%Q)])%nat.
Proof.
  apply (clip_failures_are_isolated Float64.binary64
           (fun n _ _ => if (n =? 1)%nat then None else Some n)
           3 125 (30%Q, 60%Q) [] None [(0%Q, 60%Q); (60%Q, 125%Q)]).
  vm_compute. reflexivity.
Defined.

(** ** Splitting text *)

Section Splitting.

Import Text.

Lemma string_app_nil_r (s : string) : (s ++ "")%string = s.
Proof.
  induction s as [| c s IH]; [reflexivity |].
  change (String c (s ++ "")%string = String c s). f_equal. exact IH.
Qed.

Lemma string_app_assoc (a b c : string) :
  ((a ++ b) ++ c)%string = (a ++ b ++ c)%string.
Proof.
  induction a as [| x a IH]; [reflexivity |].
  change (String x ((a ++ b) ++ c)%string = String x (a ++ b ++ c)%string).
  f_equal. exact IH.
Qed.

Lemma string_length_app (a b : string) :
  String.length (a ++ b) = (String.length a + String.length b)%nat.
Proof.
  induction a as [| x a IH]; [reflexivity |].
  change (S (String.length (a ++ b))
          = S (String.length a + String.length b)).
  f_equal. exact IH.
Qed.

Lemma prefix_app (sep rest : string) : String.prefix sep (sep ++ rest) = true.
Proof.
  induction sep as [| a sep IH]; simpl; [destruct rest; reflexivity |].
  destruct (ascii_dec a a) as [_ | H]; [exact IH | congruence].
Qed.

(** Whether [sep] starts a text is decided by the first
    [length sep] characters. *)
Lemma prefix_long (sep : string) :
  forall x y,
    (String.length sep <= String.length x)%nat ->
    String.prefix sep (x ++ y) = String.prefix sep x.
Proof.
  induction sep as [| a sep IH]; intros x y Hlen.
  - destruct x, y; reflexivity.
  - destruct x as [| b x]; simpl in Hlen; [lia |]. simpl.
    destruct (ascii_dec a b); [apply IH; lia | reflexivity].
Qed.

Lemma contains_prefix (sep s : string) :
  String.prefix sep s = true -> contains sep s = true.
Proof. intros H. destruct s; cbn [contains]; rewrite H; reflexivity. Qed.

Lemma contains_app (sep rest : string) :
  forall pre, contains sep (pre ++ sep ++ rest) = true.
Proof.
  induction pre as [| c pre IH].
  - change (contains sep (sep ++ rest) = true).
    apply contains_prefix, prefix_app.
  - change (contains sep (String c (pre ++ sep ++ rest)) = true).
    cbn [contains]. rewrite IH. apply orb_true_r.
Qed.

Lemma contains_cons (sep : string) (c : ascii) (s : string) :
  contains sep (String c s) = false ->
  String.prefix sep (String c s) = false /\ contains sep s = false.
Proof. cbn [contains]. intros H. apply orb_false_iff in H. exact H. Qed.

(** The characters of a separator just matched are passed over. *)
Lemma split_go_skip (sep : string) (a : string) :
  forall k cur rest,
    String.length a = k ->
    split_go sep k cur (a ++ rest) = split_go sep 0 cur rest.
Proof.
  induction a as [| c a IH]; intros k cur rest Hk; simpl in Hk; subst k.
  - reflexivity.
  - simpl. apply IH. reflexivity.
Qed.

Lemma split_go_cons (sep cur : string) (c : ascii) (s : string) :
  split_go sep 0 cur (String c s)
  = if String.prefix sep (String c s)
    then cur :: split_go sep (String.length sep - 1) EmptyString s
    else split_go sep 0 (cur ++ String c EmptyString)%string s.
Proof. reflexivity. Qed.

(** A text without the separator is one piece. *)
Lemma split_go_none (sep : string) (s : string) :
  forall cur,
    contains sep s = false ->
    split_go sep 0 cur s = [(cur ++ s)%string].
Proof.
  induction s as [| c s IH]; intros cur H.
  - simpl. rewrite string_app_nil_r. reflexivity.
  - apply contains_cons in H as [Hp Hc].
    rewrite split_go_cons, Hp, (IH _ Hc), string_app_assoc. reflexivity.
Qed.

(** A separator at the head ends the piece read so far. *)
Lemma split_go_match (sep cur rest : string) :
  sep <> EmptyString ->
  split_go sep 0 cur (sep ++ rest)
  = cur :: split_go sep 0 EmptyString rest.
Proof.
  intros Hne. destruct sep as [| c0 sep']; [congruence |].
  pose proof (prefix_app (String c0 sep') rest) as Hp.
  change (String c0 sep' ++ rest)%string
    with (String c0 (sep' ++ rest)%string) in Hp |- *.
  rewrite split_go_cons, Hp. f_equal.
  apply split_go_skip. simpl. lia.
Qed.

(** The first piece ends at the first occurrence of the separator. *)
Lemma split_go_first (sep init : string) (last_c : ascii) (rest : string) :
  sep = (init ++ String last_c EmptyString)%string ->
  forall pre cur,
    contains sep (pre ++ init) = false ->
    split_go sep 0 cur (pre ++ sep ++ rest)
    = (cur ++ pre)%string :: split_go sep 0 EmptyString rest.
Proof.
  intros Hsep.
  assert (Hlen : String.length sep = S (String.length init)).
  { rewrite Hsep, string_length_app. simpl. lia. }
  assert (Hne : sep <> EmptyString).
  { intros E. rewrite E in Hlen. discriminate Hlen. }
  induction pre as [| c pre IH]; intros cur H.
  - rewrite string_app_nil_r.
    change (EmptyString ++ sep ++ rest)%string with (sep ++ rest)%string.
    apply split_go_match, Hne.
  - change ((String c pre ++ init)%string)
      with (String c (pre ++ init)%string) in H.
    apply contains_cons in H as [Hp Hc].
    assert (Hp' : String.prefix sep (String c (pre ++ sep ++ rest)) = false).
    { rewrite <- Hp.
      change (String c (pre ++ sep ++ rest)%string)
        with (String c pre ++ sep ++ rest)%string.
      replace (String c pre ++ sep ++ rest)%string
        with ((String c (pre ++ init)) ++ String last_c rest)%string.
      - apply prefix_long. rewrite Hlen. simpl.
        rewrite string_length_app. lia.
      - rewrite Hsep.
        change (String c (pre ++ init) ++ String last_c rest)%string
          with (String c ((pre ++ init) ++ String last_c rest))%string.
        change (String c pre ++ (init ++ String last_c "") ++ rest)%string
          with (String c (pre ++ (init ++ String last_c "") ++ rest))%string.
        f_equal. rewrite !string_app_assoc. reflexivity. }
    change (String c pre ++ sep ++ rest)%string
      with (String c (pre ++ sep ++ rest)%string).
    rewrite split_go_cons, Hp', (IH _ Hc), string_app_assoc. reflexivity.
Qed.

(** Joining pieces that are free of a one-character separator and
    splitting the result gives the pieces back. *)
Lemma split_join (c : ascii) (pieces : list string) :
  pieces <> [] ->
  Forall (fun piece => contains (String c EmptyString) piece = false) pieces ->
  split (String c EmptyString) (join (String c EmptyString) pieces) = pieces.
Proof.
  unfold split, join.
  induction pieces as [| x pieces IH]; intros Hne Hfree; [congruence |].
  inversion Hfree as [| ? ? Hx Hrest]; subst.
  destruct pieces as [| y pieces].
  - simpl. apply split_go_none, Hx.
  - change (String.concat (String c EmptyString) (x :: y :: pieces))
      with (x ++ String c EmptyString
              ++ String.concat (String c EmptyString) (y :: pieces))%string.
    rewrite (split_go_first (String c EmptyString) EmptyString c);
      [| reflexivity | rewrite string_app_nil_r; exact Hx].
    simpl append. f_equal. apply IH; [discriminate | exact Hrest].
Qed.

End Splitting.

Section SingleCharacter.

Lemma prefix_char (c x : ascii) (s : string) :
  String.prefix (String c EmptyString) (String x s)
  = if ascii_dec c x then true else false.
Proof. simpl. destruct (ascii_dec c x); [destruct s |]; reflexivity. Qed.

(** A character occurs in a concatenation when it occurs in a part. *)
Lemma contains_char_app (c : ascii) (a b : string) :
  contains (String c EmptyString) (a ++ b)
  = contains (String c EmptyString) a || contains (String c EmptyString) b.
Proof.
  induction a as [| x a IH].
  - simpl. reflexivity.
  - change (String x a ++ b)%string with (String x (a ++ b)%string).
    cbn [contains]. rewrite IH, !prefix_char, orb_assoc. reflexivity.
Qed.

Lemma split_two (sep init : string) (last_c : ascii) (a b : string) :
  sep = (init ++ String last_c EmptyString)%string ->
  contains sep (a ++ init) = false ->
  contains sep b = false ->
  split sep (a ++ sep ++ b) = [a; b].
Proof.
  intros Hsep Ha Hb. unfold split.
  rewrite (split_go_first sep init last_c b Hsep a EmptyString Ha).
  rewrite (split_go_none sep b EmptyString Hb). reflexivity.
Qed.

End SingleCharacter.

(** ** Time tokens and blocks that are well formed *)

(** The four fields of a time token, read one by one. *)
Lemma time_to_seconds_of_fields (H M S MS : string) (h m s ms : Z) :
  contains ":" H = false -> contains ":" M = false ->
  contains ":" S = false -> contains ":" MS = false ->
  contains "," S = false -> contains "," MS = false ->
  py_int H = Some h -> py_int M = Some m ->
  py_int S = Some s -> py_int MS = Some ms ->
  _time_to_seconds (H ++ ":" ++ M ++ ":" ++ S ++ "," ++ MS)
  = (inject_Z (h * 3600 + m * 60 + s) + inject_Z ms / 1000)%Q.
Proof.
  intros HH HM HS HMS HS' HMS' Eh Em Es Ems.
  assert (Hrest : contains ":" (S ++ "," ++ MS) = false).
  { rewrite !contains_char_app, HS, HMS. reflexivity. }
  assert (E1 : split ":" (H ++ ":" ++ M ++ ":" ++ S ++ "," ++ MS)
               = [H; M; (S ++ "," ++ MS)%string]).
  { unfold split.
    rewrite (split_go_first ":" EmptyString ":" _ eq_refl H EmptyString)
      by (rewrite string_app_nil_r; exact HH).
    rewrite (split_go_first ":" EmptyString ":" _ eq_refl M EmptyString)
      by (rewrite string_app_nil_r; exact HM).
    rewrite (split_go_none ":" _ EmptyString Hrest). reflexivity. }
  assert (E2 : split "," (S ++ "," ++ MS) = [S; MS]).
  { apply (split_two "," EmptyString ",");
      [reflexivity | rewrite string_app_nil_r; exact HS' | exact HMS']. }
  unfold _time_to_seconds, time_fields.
  rewrite E1, E2, Eh, Em, Es, Ems. reflexivity.
Qed.


(** X11: a time token [h:m:s,ms] whose parts are integers for
    [int()] and whose milliseconds are zero converts to
    [3600 h + 60 m + s] seconds, as long as that number is one a float
    holds exactly.  No part is checked against a range: minutes or
    seconds of 60 and more, parts of any number of digits and negative
    parts are all accepted. *)
Theorem time_token_value (H M S MS : string) (h m s : Z) :
  contains ":" H = false -> contains ":" M = false ->
  contains ":" S = false -> contains ":" MS = false ->
  contains "," S = false -> contains "," MS = false ->
  py_int H = Some h -> py_int M = Some m ->
  py_int S = Some s -> py_int MS = Some 0%Z ->
  (Z.abs (h * 3600 + m * 60 + s) <= 2 ^ 53)%Z ->
  (_time_to_seconds (H ++ ":" ++ M ++ ":" ++ S ++ "," ++ MS)
   == inject_Z (h * 3600 + m * 60 + s))%Q.
Proof.
  intros HH HM HS HMS HS' HMS' Eh Em Es Ems _.
  rewrite (time_to_seconds_of_fields H M S MS h m s 0) by assumption.
  unfold Qdiv. change (inject_Z 0) with 0%Q. ring.
Qed.

Lemma time_token_value_witness :
  (_time_to_seconds ("00" ++ ":" ++ "99" ++ ":" ++ "-5" ++ "," ++ "0000")
   == inject_Z (0 * 3600 + 99 * 60 + -5))%Q.
Proof.
  apply (time_token_value "00" "99" "-5" "0000" 0 99 (-5));
    reflexivity || (vm_compute; discriminate).
Defined.

(** X12: a block without white space at its ends that consists of an
    index line, a time line [t1 --> t2] with one arrow, and one or more
    lines of text, becomes one entry: its times are those of [t1] and
    [t2] and its text is the text lines joined by single spaces. *)
Theorem well_formed_block_parses (index t1 t2 : string)
    (text_lines : list string) :
  let lines := index :: (t1 ++ " --> " ++ t2)%string :: text_lines in
  text_lines <> [] ->
  Forall (fun line => contains newline line = false) lines ->
  contains " --> " (t1 ++ " -->") = false ->
  contains " --> " t2 = false ->
  strip (join newline lines) = join newline lines ->
  parse_block (join newline lines)
  = Returns (Some {| sub_start := _time_to_seconds t1;
                     sub_end := _time_to_seconds t2;
                     sub_text := join " " text_lines |}).
Proof.
  intros lines Hne Hfree Ht1 Ht2 Hstrip.
  unfold parse_block. rewrite Hstrip.
  assert (Hsplit : split newline (join newline lines) = lines).
  { apply (split_join (ascii_of_nat 10)); [discriminate | exact Hfree]. }
  rewrite Hsplit.
  assert (Hlen : (3 <=? length lines)%nat = true).
  { destruct text_lines; [congruence | reflexivity]. }
  rewrite Hlen. cbn [lines nth skipn].
  rewrite (split_two " --> " " -->" " " t1 t2 eq_refl Ht1 Ht2).
  reflexivity.
Qed.

Lemma well_formed_block_parses_witness :
  parse_block (join newline ["7"; ("00:01:02,500" ++ " --> " ++ "00:01:04,000")%string;
                             "two"; "lines"])
  = Returns (Some {| sub_start := _time_to_seconds "00:01:02,500";
                     sub_end := _time_to_seconds "00:01:04,000";
                     sub_text := join " " ["two"; "lines"] |}).
Proof.
  apply (well_formed_block_parses "7" "00:01:02,500" "00:01:04,000"
           ["two"; "lines"]).
  - discriminate.
  - repeat constructor.
  - reflexivity.
  - reflexivity.
  - reflexivity.
Defined.

(** ** Numbers printed in decimal and read back *)

Section Decimal.

Import Text.

Lemma pretty_N_char_digit (d : N) :
  (d < 10)%N ->
  is_digit (pretty_N_char d) = true
  /\ digit_value (pretty_N_char d) = Z.of_N d.
Proof.
  intros Hd.
  assert (H : (d = 0 \/ d = 1 \/ d = 2 \/ d = 3 \/ d = 4 \/ d = 5 \/ d = 6
               \/ d = 7 \/ d = 8 \/ d = 9)%N) by lia.
  repeat (destruct H as [-> | H]; [split; reflexivity |]).
  subst d. split; reflexivity.
Qed.

Lemma digits_digit (acc : Z) (after_digit : bool) (c : ascii) (s : string) :
  is_digit c = true ->
  digits acc after_digit (String c s)
  = digits (acc * 10 + digit_value c) true s.
Proof. intros H. simpl. rewrite H. reflexivity. Qed.

(** Reading the digits that [pretty_N_go] puts in front of [s]. *)
Lemma digits_pretty_go (x : N) :
  (0 < x)%N ->
  exists p : Z,
    forall acc after_digit s,
      digits acc after_digit (pretty_N_go x s)
      = digits (acc * p + Z.of_N x) true s.
Proof.
  induction (N.lt_wf_0 x) as [x _ IH]. intros Hx.
  destruct (pretty_N_char_digit (x mod 10)%N) as [Hd Hv];
    [apply N.mod_lt; lia |].
  assert (Hdm : (Z.of_N x = Z.of_N (x / 10)%N * 10 + Z.of_N (x mod 10)%N)%Z).
  { rewrite (N.div_mod x 10%N) at 1 by lia. lia. }
  destruct (N.eq_dec (x / 10)%N 0%N) as [Hz | Hnz].
  - exists 10%Z. intros acc after_digit s.
    rewrite pretty_N_go_step by exact Hx. rewrite Hz, pretty_N_go_0.
    rewrite digits_digit by exact Hd. rewrite Hv.
    f_equal. rewrite Hdm, Hz. lia.
  - destruct (IH (x / 10)%N) as [p Hp];
      [apply N.div_lt; lia | apply N.neq_0_lt_0; exact Hnz |].
    exists (p * 10)%Z. intros acc after_digit s.
    rewrite pretty_N_go_step by exact Hx. rewrite Hp.
    rewrite digits_digit by exact Hd. rewrite Hv.
    f_equal. rewrite Hdm. lia.
Qed.

Lemma digits_pretty (n : N) (after_digit : bool) :
  digits 0 after_digit (pretty n) = Some (Z.of_N n).
Proof.
  unfold pretty, pretty_N. destruct (decide (n = 0%N)) as [-> | Hn].
  - reflexivity.
  - destruct (digits_pretty_go n) as [p Hp]; [lia |].
    rewrite Hp. simpl. f_equal; lia.
Qed.

Lemma all_digits_pretty_go (x : N) :
  forall s,
    all_chars is_digit s = true ->
    all_chars is_digit (pretty_N_go x s) = true.
Proof.
  induction (N.lt_wf_0 x) as [x _ IH]. intros s Hs.
  destruct (N.eq_dec x 0%N) as [-> | Hx]; [rewrite pretty_N_go_0; exact Hs |].
  rewrite pretty_N_go_step by lia.
  apply IH; [apply N.div_lt; lia |].
  simpl. rewrite (proj1 (pretty_N_char_digit (x mod 10)%N
                           ltac:(apply N.mod_lt; lia))).
  exact Hs.
Qed.

Lemma all_digits_pretty (n : N) : all_chars is_digit (pretty n) = true.
Proof.
  unfold pretty, pretty_N. destruct (decide (n = 0%N)); [reflexivity |].
  apply all_digits_pretty_go. reflexivity.
Qed.

Lemma pretty_not_empty (n : N) : pretty n <> EmptyString.
Proof.
  intros E. pose proof (digits_pretty n false) as H.
  rewrite E in H. discriminate H.
Qed.

Lemma all_chars_app (p : ascii -> bool) (a b : string) :
  all_chars p (a ++ b) = all_chars p a && all_chars p b.
Proof.
  induction a as [| c a IH]; [reflexivity |].
  change (String c a ++ b)%string with (String c (a ++ b)%string).
  simpl. rewrite IH, andb_assoc. reflexivity.
Qed.

Lemma all_chars_impl (p q : ascii -> bool) (s : string) :
  (forall c, p c = true -> q c = true) ->
  all_chars p s = true -> all_chars q s = true.
Proof.
  intros Hpq. induction s as [| c s IH]; simpl; [trivial |].
  intros H. apply andb_true_iff in H as [H1 H2].
  rewrite (Hpq c H1), (IH H2). reflexivity.
Qed.

Lemma digit_not_space (c : ascii) :
  is_digit_or_minus c = true -> is_space c = false.
Proof.
  destruct c as [[] [] [] [] [] [] [] []]; try discriminate; reflexivity.
Qed.

(** Text without white space is left alone by [strip]. *)
Lemma lstrip_no_space (s : string) :
  all_chars is_digit_or_minus s = true -> lstrip s = s.
Proof.
  destruct s as [| c s]; [reflexivity |]. simpl. intros H.
  apply andb_true_iff in H as [H _].
  rewrite (digit_not_space c H). reflexivity.
Qed.

Lemma rstrip_no_space (s : string) :
  all_chars is_digit_or_minus s = true -> rstrip s = s.
Proof.
  induction s as [| c s IH]; [reflexivity |]. simpl. intros H.
  apply andb_true_iff in H as [Hc Hs].
  rewrite (IH Hs), (digit_not_space c Hc). destruct s; reflexivity.
Qed.

Lemma strip_no_space (s : string) :
  all_chars is_digit_or_minus s = true -> strip s = s.
Proof.
  intros H. unfold strip. rewrite (lstrip_no_space s H).
  apply rstrip_no_space, H.
Qed.

Lemma digits_zeros (k : nat) (s : string) (after_digit : bool) :
  digits 0 after_digit (zeros k ++ s)
  = digits 0 (match k with O => after_digit | S _ => true end) s.
Proof.
  revert after_digit. induction k as [| k IH]; intros after_digit;
    [reflexivity |].
  change (zeros (S k) ++ s)%string with (String "0" (zeros k ++ s)%string).
  rewrite digits_digit by reflexivity. simpl Z.add.
  rewrite IH. destruct k; reflexivity.
Qed.

Lemma all_digits_zeros (k : nat) : all_chars is_digit (zeros k) = true.
Proof. induction k as [| k IH]; [reflexivity | exact IH]. Qed.

Lemma all_digits_zero_pad (width : nat) (n : N) :
  all_chars is_digit (zero_pad width (pretty n)) = true.
Proof.
  unfold zero_pad. rewrite all_chars_app, all_digits_zeros, all_digits_pretty.
  reflexivity.
Qed.

Lemma digits_zero_pad (width : nat) (n : N) :
  digits 0 false (zero_pad width (pretty n)) = Some (Z.of_N n).
Proof. unfold zero_pad. rewrite digits_zeros. apply digits_pretty. Qed.

Lemma digit_is_digit_or_minus (c : ascii) :
  is_digit c = true -> is_digit_or_minus c = true.
Proof. intros H. unfold is_digit_or_minus. rewrite H. reflexivity. Qed.

(** [int()] on digits only. *)
Lemma py_int_digits (s : string) :
  all_chars is_digit s = true ->
  py_int s = digits 0 false s.
Proof.
  intros H. unfold py_int.
  rewrite (strip_no_space s
             (all_chars_impl _ _ s digit_is_digit_or_minus H)).
  destruct s as [| c s]; [reflexivity |].
  simpl in H. apply andb_true_iff in H as [Hc _].
  destruct c as [[] [] [] [] [] [] [] []]; try discriminate Hc; reflexivity.
Qed.

Lemma all_chars_format_0d (width : nat) (z : Z) :
  all_chars is_digit_or_minus (format_0d width z) = true.
Proof.
  unfold format_0d. destruct (z <? 0)%Z.
  - simpl. apply (all_chars_impl _ _ _ digit_is_digit_or_minus).
    apply all_digits_zero_pad.
  - apply (all_chars_impl _ _ _ digit_is_digit_or_minus).
    apply all_digits_zero_pad.
Qed.

(** What [format(z, '0Nd')] prints, [int()] reads back. *)
Lemma py_int_format_0d (width : nat) (z : Z) :
  py_int (format_0d width z) = Some z.
Proof.
  unfold format_0d. destruct (z <? 0)%Z eqn:Hz.
  - apply Z.ltb_lt in Hz. unfold py_int.
    rewrite strip_no_space.
    + rewrite digits_zero_pad. simpl. f_equal. lia.
    + simpl. apply (all_chars_impl _ _ _ digit_is_digit_or_minus).
      apply all_digits_zero_pad.
  - apply Z.ltb_ge in Hz.
    rewrite py_int_digits by apply all_digits_zero_pad.
    rewrite digits_zero_pad. f_equal. lia.
Qed.

(** A character that no character of [s] may be does not occur in
    [s]. *)
Lemma contains_char_none (p : ascii -> bool) (c : ascii) (s : string) :
  p c = false ->
  all_chars p s = true ->
  contains (String c EmptyString) s = false.
Proof.
  intros Hc. induction s as [| x s IH]; [reflexivity |]. simpl all_chars.
  intros H. apply andb_true_iff in H as [Hx Hs].
  cbn [contains]. rewrite prefix_char, (IH Hs).
  destruct (ascii_dec c x) as [-> | _]; [congruence | reflexivity].
Qed.

Lemma string_app_inv_tail (t : string) :
  forall a b, (a ++ t)%string = (b ++ t)%string -> a = b.
Proof.
  intros a b H.
  assert (Hlen : String.length a = String.length b).
  { apply (f_equal String.length) in H.
    rewrite !string_length_app in H. lia. }
  revert b H Hlen. induction a as [| x a IH]; intros [| y b] H Hlen;
    try discriminate Hlen; [reflexivity |].
  change (String x (a ++ t)%string = String y (b ++ t)%string) in H.
  injection H as -> H. f_equal. apply IH; [exact H |].
  simpl in Hlen. lia.
Qed.

End Decimal.

(** X13: two clips of one video never get the same file name: the
    names built from one base name and two different clip numbers
    differ, also beyond the three digits the number is padded to. *)
Theorem clip_file_names_differ (base_name : string) (n m : nat) :
  n <> m -> output_filename base_name n <> output_filename base_name m.
Proof.
  unfold output_filename. intros Hnm H. apply Hnm.
  apply String.app_inj in H. apply (String.app_inj "_clip_") in H.
  apply string_app_inv_tail in H.
  apply (f_equal py_int) in H. rewrite !py_int_format_0d in H.
  injection H as H. lia.
Qed.

Lemma clip_file_names_differ_witness :
  output_filename "talk" 7 <> output_filename "talk" 1007.
Proof. apply (clip_file_names_differ "talk" 7 1007). lia. Defined.

(** X14: [format_duration] and the transcript's time parser agree:
    the text [format_duration] writes for a number of seconds, followed
    by [",000"], is read by [_time_to_seconds] as that number with its
    fraction cut off (for whole numbers a float holds exactly).  It
    holds for negative numbers too, which are written with a negative
    hour field. *)
Theorem format_duration_read_back (seconds : Q) :
  (Z.abs (int_of_float seconds) <= 2 ^ 53)%Z ->
  (_time_to_seconds (format_duration seconds ++ ",000")
   == inject_Z (int_of_float seconds))%Q.
Proof.
  intros _. unfold format_duration.
  set (n := int_of_float seconds).
  set (h := (n / 3600)%Z). set (r := (n mod 3600)%Z).
  set (m := (r / 60)%Z). set (s := (r mod 60)%Z).
  cbv zeta.
  replace ((format_0d 2 h ++ ":" ++ format_0d 2 m ++ ":" ++ format_0d 2 s)
           ++ ",000")%string
    with (format_0d 2 h ++ ":" ++ format_0d 2 m ++ ":"
          ++ format_0d 2 s ++ "," ++ "000")%string
    by (rewrite !string_app_assoc; reflexivity).
  assert (Hfree : forall c z,
            Text.is_digit_or_minus c = false ->
            contains (String c EmptyString) (format_0d 2 z) = false).
  { intros c z Hc.
    apply (contains_char_none Text.is_digit_or_minus c _ Hc).
    apply all_chars_format_0d. }
  rewrite (time_to_seconds_of_fields (format_0d 2 h) (format_0d 2 m)
             (format_0d 2 s) "000" h m s 0);
    try (apply Hfree; reflexivity); try reflexivity;
    try apply py_int_format_0d.
  assert (Hn : (h * 3600 + m * 60 + s = n)%Z).
  { unfold h, m, s, r.
    pose proof (Z.div_mod n 3600 ltac:(lia)).
    pose proof (Z.div_mod (n mod 3600) 60 ltac:(lia)). lia. }
  rewrite Hn. unfold Qdiv. change (inject_Z 0) with 0%Q. ring.
Qed.

Lemma format_duration_read_back_witness :
  (_time_to_seconds (format_duration (-7323.5) ++ ",000")
   == inject_Z (int_of_float (-7323.5)))%Q.
Proof.
  apply (format_duration_read_back (-7323.5)). vm_compute. discriminate.
Defined.

(** ** File sizes *)

Section FileSizeUnits.

Local Open Scope Q_scope.

Lemma below_1024 (x : Q) : x < 1024 -> Qltb x 1024 = true.
Proof. apply Qltb_lt. Qed.

Lemma from_1024 (x : Q) : 1024 <= x -> Qltb x 1024 = false.
Proof. apply Qltb_ge. Qed.

End FileSizeUnits.

(** Comparing a number divided by 1024 some times with a bound. *)
Ltac scaled :=
  repeat first [ apply Qlt_shift_div_r; [reflexivity |]
               | apply Qle_shift_div_l; [reflexivity |] ];
  lra.

(** X15: [format_file_size] picks the unit by powers of 1024: a whole
    number of bytes below 1024 (a negative one too) is written in B,
    from [1024^k] up to [1024^(k+1)] in the [k]-th of KB, MB, GB after
    [k] divisions by 1024, and from [1024^4] on in TB after four
    divisions, however large the number (the sizes are kept below
    [2^53], where every division is exact in floating point). *)
Theorem file_size_unit (format_2f : Q -> string) (b : Z) :
  (b <= 2 ^ 53)%Z ->
  let x := inject_Z b in
  ((b < 1024)%Z ->
   format_file_size format_2f x = (format_2f x ++ " B")%string)
  /\ ((1024 <= b < 1024 ^ 2)%Z ->
      format_file_size format_2f x
      = (format_2f (x / 1024)%Q ++ " KB")%string)
  /\ ((1024 ^ 2 <= b < 1024 ^ 3)%Z ->
      format_file_size format_2f x
      = (format_2f (x / 1024 / 1024)%Q ++ " MB")%string)
  /\ ((1024 ^ 3 <= b < 1024 ^ 4)%Z ->
      format_file_size format_2f x
      = (format_2f (x / 1024 / 1024 / 1024)%Q ++ " GB")%string)
  /\ ((1024 ^ 4 <= b)%Z ->
      format_file_size format_2f x
      = (format_2f (x / 1024 / 1024 / 1024 / 1024)%Q ++ " TB")%string).
Proof.
  intros _ x.
  assert (Hx : forall c : Z, (inject_Z c <= x)%Q <-> (c <= b)%Z)
    by (intros c; unfold x; rewrite <- Zle_Qle; reflexivity).
  assert (Hx' : forall c : Z, (x < inject_Z c)%Q <-> (b < c)%Z)
    by (intros c; unfold x; rewrite <- Zlt_Qlt; reflexivity).
  clearbody x. unfold format_file_size.
  repeat split; intros H; cbn [file_size_loop].
  - rewrite below_1024; [reflexivity |]. apply (Hx' 1024%Z), H.
  - pose proof (proj2 (Hx 1024%Z) (proj1 H)) as H1.
    pose proof (proj2 (Hx' (1024 ^ 2)%Z) (proj2 H)) as H2.
    change (inject_Z 1024) with 1024%Q in H1.
    change (inject_Z (1024 ^ 2)) with 1048576%Q in H2.
    rewrite from_1024 by exact H1.
    rewrite below_1024; [reflexivity | scaled].
  - pose proof (proj2 (Hx (1024 ^ 2)%Z) (proj1 H)) as H1.
    pose proof (proj2 (Hx' (1024 ^ 3)%Z) (proj2 H)) as H2.
    change (inject_Z (1024 ^ 2)) with 1048576%Q in H1.
    change (inject_Z (1024 ^ 3)) with 1073741824%Q in H2.
    rewrite from_1024 by scaled. rewrite from_1024 by scaled.
    rewrite below_1024; [reflexivity | scaled].
  - pose proof (proj2 (Hx (1024 ^ 3)%Z) (proj1 H)) as H1.
    pose proof (proj2 (Hx' (1024 ^ 4)%Z) (proj2 H)) as H2.
    change (inject_Z (1024 ^ 3)) with 1073741824%Q in H1.
    change (inject_Z (1024 ^ 4)) with 1099511627776%Q in H2.
    rewrite from_1024 by scaled. rewrite from_1024 by scaled.
    rewrite from_1024 by scaled.
    rewrite below_1024; [reflexivity | scaled].
  - pose proof (proj2 (Hx (1024 ^ 4)%Z) H) as H1.
    change (inject_Z (1024 ^ 4)) with 1099511627776%Q in H1.
    rewrite from_1024 by scaled. rewrite from_1024 by scaled.
    rewrite from_1024 by scaled. rewrite from_1024 by scaled.
    reflexivity.
Qed.

Lemma file_size_unit_witness :
  format_file_size (fun x => pretty (Z.to_N (Qfloor x))) (inject_Z 5242880)
  = (pretty (Z.to_N (Qfloor (inject_Z 5242880 / 1024 / 1024)%Q)) ++ " MB")%string.
Proof.
  apply (file_size_unit (fun x => pretty (Z.to_N (Qfloor x))) 5242880).
  - vm_compute. discriminate.
  - lia.
Defined.
